(** * The script engine of [session2/complete/script.py]

    A shallow embedding of the [Script] class: its binary codec
    ([parse], [raw_serialize], [serialize]), its stack machine
    ([evaluate]) and its pattern predicates, together with the
    properties the specification states about them.

    Python integers are [Z], [bytes] values are lists of [byte], a
    command list holds integers (opcodes) and byte strings (data
    pushes).  Exceptions are values of [exn]; a function that can
    raise returns a [res]. *)

From Stdlib Require Import ZArith List Bool Lia.
From Stdlib Require Import Init.Byte Strings.Byte.
Import ListNotations.
Local Open Scope Z_scope.

(** ** Bytes, exceptions and results *)

Definition bytes := list byte.

Definition byte_to_Z (b : byte) : Z := Z.of_N (Byte.to_N b).

Definition byte_of_Z (n : Z) : byte :=
  match Byte.of_N (Z.to_N (n mod 256)) with
  | Some b => b
  | None => x00
  end.

(** [len(x)] of a Python sequence. *)
Definition len {A : Type} (l : list A) : Z := Z.of_nat (length l).

Definition bytes_eqb (a b : bytes) : bool :=
  if list_eq_dec Byte.byte_eq_dec a b then true else false.

(** The exceptions the engine and its helpers can raise. *)
Inductive exn : Set :=
| IndexError
| SyntaxError
| ValueError
| OverflowError
| KeyError
| TypeError.

(** Result of a call: a value, a raised exception, or (for the models of
    [while] loops only) exhaustion of the iteration budget. *)
Inductive res (A : Type) : Type :=
| Ok (a : A)
| Raise (e : exn)
| OutOfFuel.

Arguments Ok {A} a.
Arguments Raise {A} e.
Arguments OutOfFuel {A}.

Definition bind {A B : Type} (m : res A) (k : A -> res B) : res B :=
  match m with
  | Ok a => k a
  | Raise e => Raise e
  | OutOfFuel => OutOfFuel
  end.

Notation "x <- m ;; k" := (bind m (fun x => k))
  (at level 61, m at next level, right associativity).

Notation "' p <- m ;; k" := (bind m (fun x => let 'p := x in k))
  (at level 61, p pattern, m at next level, right associativity).

(** ** Primitive codec ([helper.py]) *)

(** The [length] low-order base-256 digits of [n], least significant
    first. *)
Fixpoint le_bytes (n : Z) (length : nat) : bytes :=
  match length with
  | O => []
  | S k => byte_of_Z n :: le_bytes (n / 256) k
  end.

(** Modelled from the spec: [helper.int_to_little_endian] ("little-endian
    integer encode"), the fixed-width encoding [n.to_bytes(length,
    'little')], which raises [OverflowError] when [n] does not fit. *)
Definition int_to_little_endian (n : Z) (length : nat) : res bytes :=
  if (0 <=? n) && (n <? 256 ^ Z.of_nat length)
  then Ok (le_bytes n length)
  else Raise OverflowError.

(** Modelled from the spec: [helper.little_endian_to_int] ("little-endian
    integer decode"), [int.from_bytes(b, 'little')]. *)
Fixpoint little_endian_to_int (b : bytes) : Z :=
  match b with
  | [] => 0
  | x :: r => byte_to_Z x + 256 * little_endian_to_int r
  end.

(** A [BytesIO] stream is the list of bytes not yet read; [s.read(n)]
    returns at most [n] bytes and advances. *)
Definition stream := bytes.

Definition read (n : Z) (s : stream) : bytes * stream :=
  (firstn (Z.to_nat n) s, skipn (Z.to_nat n) s).

(** Modelled from the spec: [helper.read_varint] ("variable-length integer
    (varint) decode"): one byte, or a marker [0xfd], [0xfe], [0xff]
    followed by 2, 4 or 8 little-endian bytes.  Indexing the byte read
    from an exhausted stream raises [IndexError]. *)
Definition read_varint (s : stream) : res (Z * stream) :=
  match s with
  | [] => Raise IndexError
  | i :: s1 =>
      if byte_to_Z i =? 0xfd then
        let (b, s2) := read 2 s1 in Ok (little_endian_to_int b, s2)
      else if byte_to_Z i =? 0xfe then
        let (b, s2) := read 4 s1 in Ok (little_endian_to_int b, s2)
      else if byte_to_Z i =? 0xff then
        let (b, s2) := read 8 s1 in Ok (little_endian_to_int b, s2)
      else Ok (byte_to_Z i, s1)
  end.

(** Modelled from the spec: [helper.encode_varint] ("variable-length integer
    (varint) encode"); integers of 2^64 and more (and negative ones) raise
    [ValueError]. *)
Definition encode_varint (i : Z) : res bytes :=
  if i <? 0 then Raise ValueError
  else if i <? 0xfd then Ok [byte_of_Z i]
  else if i <? 0x10000 then
    b <- int_to_little_endian i 2 ;; Ok (xfd :: b)
  else if i <? 0x100000000 then
    b <- int_to_little_endian i 4 ;; Ok (xfe :: b)
  else if i <? 0x10000000000000000 then
    b <- int_to_little_endian i 8 ;; Ok (xff :: b)
  else Raise ValueError.

(** Modelled from the spec: [helper.encode_varstr] ("length-prefixed
    byte-string framing"). *)
Definition encode_varstr (b : bytes) : res bytes :=
  v <- encode_varint (len b) ;; Ok (v ++ b).

(** ** Script values *)

(** An element of [Script.commands]: a Python [int] or a [bytes]. *)
Inductive command : Type :=
| Opcode (n : Z)
| DataPush (d : bytes).

(** A [Script] object is its [commands] list. *)
Definition Script := list command.

(** [command == n] for an integer [n]: a [bytes] never equals an
    [int]. *)
Definition is_op (c : command) (n : Z) : bool :=
  match c with
  | Opcode m => m =? n
  | DataPush _ => false
  end.

(** [type(command) == bytes and len(command) == n]. *)
Definition is_push_of_len (c : command) (n : Z) : bool :=
  match c with
  | Opcode _ => false
  | DataPush d => len d =? n
  end.

(** ** Script codec *)

(** Body of the [while count < length] loop of [Script.parse].  Every
    iteration that does not raise reads at least one byte, so [fuel] is
    bounded by the bytes left in the stream. *)
Fixpoint parse_loop (fuel : nat) (s : stream) (count length : Z)
  (commands : list command) : res (list command) :=
  if count <? length then
    match s with
    | [] => Raise IndexError
    | current :: s1 =>
        match fuel with
        | O => OutOfFuel
        | S fuel' =>
            let count := count + 1 in
            let current_byte := byte_to_Z current in
            if (1 <=? current_byte) && (current_byte <=? 75) then
              let n := current_byte in
              let (data, s2) := read n s1 in
              parse_loop fuel' s2 (count + n) length
                (commands ++ [DataPush data])
            else if current_byte =? 76 then
              let (lb, s2) := read 1 s1 in
              let data_length := little_endian_to_int lb in
              let (data, s3) := read data_length s2 in
              parse_loop fuel' s3 (count + (data_length + 1)) length
                (commands ++ [DataPush data])
            else if current_byte =? 77 then
              let (lb, s2) := read 2 s1 in
              let data_length := little_endian_to_int lb in
              let (data, s3) := read data_length s2 in
              parse_loop fuel' s3 (count + (data_length + 2)) length
                (commands ++ [DataPush data])
            else
              let op_code := current_byte in
              parse_loop fuel' s1 count length (commands ++ [Opcode op_code])
        end
    end
  else if negb (count =? length) then Raise SyntaxError
  else Ok commands.

(** [Script.parse]. *)
Definition parse (s : stream) : res Script :=
  '(length, s1) <- read_varint s ;;
  parse_loop (List.length s1) s1 0 length [].

(** One pass of the [for command in self.commands] loop of
    [Script.raw_serialize]: the bytes appended to [result]. *)
Definition serialize_command (c : command) : res bytes :=
  match c with
  | Opcode n => int_to_little_endian n 1
  | DataPush d =>
      let length := len d in
      prefix <-
        (if length <? 75 then int_to_little_endian length 1
         else if (75 <? length) && (length <? 0x100) then
           a <- int_to_little_endian 76 1 ;;
           b <- int_to_little_endian length 1 ;;
           Ok (a ++ b)
         else if (0x100 <=? length) && (length <=? 520) then
           a <- int_to_little_endian 77 1 ;;
           b <- int_to_little_endian length 2 ;;
           Ok (a ++ b)
         else Raise ValueError) ;;
      Ok (prefix ++ d)
  end.

Fixpoint raw_serialize_loop (commands : list command) (result : bytes)
  : res bytes :=
  match commands with
  | [] => Ok result
  | c :: rest =>
      b <- serialize_command c ;;
      raw_serialize_loop rest (result ++ b)
  end.

(** [Script.raw_serialize]. *)
Definition raw_serialize (self : Script) : res bytes :=
  raw_serialize_loop self [].

(** [Script.serialize]. *)
Definition serialize (self : Script) : res bytes :=
  result <- raw_serialize self ;;
  encode_varstr result.

(** The bytes of a command list, without the accumulator of the loop. *)
Fixpoint serialize_all (s : list command) : res bytes :=
  match s with
  | [] => Ok []
  | c :: rest =>
      x <- serialize_command c ;;
      y <- serialize_all rest ;;
      Ok (x ++ y)
  end.

(** ** Pattern recognizer and builders *)

(** [p2pkh_script(h160)]. *)
Definition p2pkh_script (h160 : bytes) : Script :=
  [Opcode 0x76; Opcode 0xa9; DataPush h160; Opcode 0x88; Opcode 0xac].

(** [p2sh_script(h160)]. *)
Definition p2sh_script (h160 : bytes) : Script :=
  [Opcode 0xa9; DataPush h160; Opcode 0x87].

(** [p2wpkh_script(h160)]. *)
Definition p2wpkh_script (h160 : bytes) : Script :=
  [Opcode 0x00; DataPush h160].

(** [p2wsh_script(s256)]. *)
Definition p2wsh_script (s256 : bytes) : Script :=
  [Opcode 0x00; DataPush s256].

(** [Script.is_p2pkh_script_pubkey]. *)
Definition is_p2pkh_script_pubkey (self : Script) : bool :=
  match self with
  | [c0; c1; c2; c3; c4] =>
      is_op c0 0x76 && is_op c1 0xa9 && is_push_of_len c2 20
      && is_op c3 0x88 && is_op c4 0xac
  | _ => false
  end.

(** [Script.is_p2sh_script_pubkey]. *)
Definition is_p2sh_script_pubkey (self : Script) : bool :=
  match self with
  | [c0; c1; c2] => is_op c0 0xa9 && is_push_of_len c1 20 && is_op c2 0x87
  | _ => false
  end.

(** [Script.is_p2wpkh_script_pubkey]. *)
Definition is_p2wpkh_script_pubkey (self : Script) : bool :=
  match self with
  | [c0; c1] => is_op c0 0x00 && is_push_of_len c1 20
  | _ => false
  end.

(** [Script.is_p2wsh_script_pubkey]. *)
Definition is_p2wsh_script_pubkey (self : Script) : bool :=
  match self with
  | [c0; c1] => is_op c0 0x00 && is_push_of_len c1 32
  | _ => false
  end.

(** ** Script evaluator *)

(** [l.pop()] on a Python list: the last element and the shortened list,
    [None] when the list is empty. *)
Definition pop {A : Type} (l : list A) : option (A * list A) :=
  match rev l with
  | [] => None
  | x :: r => Some (x, rev r)
  end.

(** [x == b''] for a byte string [x]. *)
Definition is_empty (x : bytes) : bool :=
  match x with
  | [] => true
  | _ :: _ => false
  end.

(** An entry of the opcode table, by calling convention: the function is
    handed the lists it may mutate and returns its boolean ("supplies
    boolean success/failure per invocation") together with the lists as
    it left them. *)
Inductive operation : Type :=
| StackOp (f : list bytes -> bool * list bytes)
| BranchOp (f : list bytes -> list command -> bool * (list bytes * list command))
| AltOp (f : list bytes -> list bytes -> bool * (list bytes * list bytes))
| SigOp (f : list bytes -> Z -> bool * list bytes).

(** The list objects alive during one call of [Script.evaluate]: the list
    [self.commands] of the script, the caller's [witness], and the three
    lists local to the call. *)
Record frame : Type := Frame {
  self_commands : list command;
  witness : list bytes;
  commands : list command;
  stack : list bytes;
  altstack : list bytes
}.

Definition with_commands (c : list command) (m : frame) : frame :=
  Frame (self_commands m) (witness m) c (stack m) (altstack m).

Definition with_stack (s : list bytes) (m : frame) : frame :=
  Frame (self_commands m) (witness m) (commands m) s (altstack m).

Definition with_altstack (a : list bytes) (m : frame) : frame :=
  Frame (self_commands m) (witness m) (commands m) (stack m) a.

(** What one pass of the [while] loop does: go on with the next command, or
    leave [evaluate] with a returned boolean or a raised exception. *)
Inductive flow : Type :=
| Continue (m : frame)
| Stop (r : res bool) (m : frame).

(** Run [k] on the value of [r]; an exception raised by [r] leaves
    [evaluate]. *)
Definition try {A : Type} (r : res A) (m : frame) (k : A -> flow) : flow :=
  match r with
  | Ok a => k a
  | Raise e => Stop (Raise e) m
  | OutOfFuel => Stop OutOfFuel m
  end.

(** The look-ahead test of the p2sh rule: [len(commands) == 3 and
    commands[0] == 0xa9 and type(commands[1]) == bytes and
    len(commands[1]) == 20 and commands[2] == 0x87]; gives [commands[1]]. *)
Definition p2sh_lookahead (commands : list command) : option bytes :=
  match commands with
  | [Opcode a; DataPush h160; Opcode b] =>
      if (a =? 0xa9) && (len h160 =? 20) && (b =? 0x87)
      then Some h160 else None
  | _ => None
  end.

Section Evaluator.

(** The external collaborators: the two digests of the primitive codec
    and the opcode table [OP_CODE_FUNCTIONS], a dictionary keyed by
    opcode number. *)
Variable hash160 : bytes -> bytes.
Variable sha256 : bytes -> bytes.
Variable OP_CODE_FUNCTIONS : Z -> option operation.

(** Modelled from the spec: [op.op_hash160] ("hash the pushed bytes"),
    which replaces the top element by its 160-bit hash and fails on an
    empty stack. *)
Definition op_hash160 (stack : list bytes) : bool * list bytes :=
  match pop stack with
  | None => (false, stack)
  | Some (element, st) => (true, st ++ [hash160 element])
  end.

(** Modelled from the spec: [op.op_equal] ("compare equal"), which
    replaces the two top elements by the encoding of 1 when they are
    equal and of 0 (the empty byte string) when they are not, and
    fails on fewer than two elements. *)
Definition op_equal (stack : list bytes) : bool * list bytes :=
  match pop stack with
  | None => (false, stack)
  | Some (element1, st1) =>
      match pop st1 with
      | None => (false, stack)
      | Some (element2, st2) =>
          if bytes_eqb element1 element2
          then (true, st2 ++ [[x01]])
          else (true, st2 ++ [[]])
      end
  end.

(** Modelled from the spec: [op.op_verify] ("require the result be
    truthy"), which pops the top element and fails when it is the empty
    byte string or when the stack is empty. *)
Definition op_verify (stack : list bytes) : bool * list bytes :=
  match pop stack with
  | None => (false, stack)
  | Some (element, st) => (negb (is_empty element), st)
  end.

(** The call [operation(...)] of the [if type(command) == int] branch:
    the table is indexed by the opcode ([KeyError] when it has no such
    key) and the function found is called with the arguments its opcode
    number selects ([TypeError] when it does not take them); the result
    is the boolean it returns and the lists as it leaves them. *)
Definition invoke (z : Z) (command : Z) (m : frame) : res (bool * frame) :=
  match OP_CODE_FUNCTIONS command with
  | None => Raise KeyError
  | Some operation =>
      if (command =? 99) || (command =? 100) then
        match operation with
        | BranchOp f =>
            let '(ok, (st, cmds)) := f (stack m) (commands m) in
            Ok (ok, with_commands cmds (with_stack st m))
        | _ => Raise TypeError
        end
      else if (command =? 107) || (command =? 108) then
        match operation with
        | AltOp f =>
            let '(ok, (st, alt)) := f (stack m) (altstack m) in
            Ok (ok, with_altstack alt (with_stack st m))
        | _ => Raise TypeError
        end
      else if (command =? 172) || (command =? 173)
              || (command =? 174) || (command =? 175) then
        match operation with
        | SigOp f =>
            let '(ok, st) := f (stack m) z in
            Ok (ok, with_stack st m)
        | _ => Raise TypeError
        end
      else
        match operation with
        | StackOp f =>
            let '(ok, st) := f (stack m) in
            Ok (ok, with_stack st m)
        | _ => Raise TypeError
        end
  end.

(** The [if type(command) == int] branch: [if not operation(...):
    return False]. *)
Definition exec_opcode (z : Z) (command : Z) (m : frame) : flow :=
  try (invoke z command m) m (fun r =>
  let '(ok, m') := r in
  if negb ok then Stop (Ok false) m' else Continue m').

(** The p2sh rule, applied after [command] was appended to the stack. *)
Definition p2sh_rule (command : bytes) (m : frame) : flow :=
  match p2sh_lookahead (commands m) with
  | None => Continue m
  | Some h160 =>
      try (encode_varstr command) m (fun redeem_script =>
      let m := with_commands [] m in
      let '(ok, st) := op_hash160 (stack m) in
      let m := with_stack st m in
      if negb ok then Stop (Ok false) m else
      let m := with_stack (stack m ++ [h160]) m in
      let '(ok, st) := op_equal (stack m) in
      let m := with_stack st m in
      if negb ok then Stop (Ok false) m else
      let '(ok, st) := op_verify (stack m) in
      let m := with_stack st m in
      if negb ok then Stop (Ok false) m else
      try (parse redeem_script) m (fun parsed =>
      Continue (with_commands (commands m ++ parsed) m)))
  end.

(** The first witness program rule: [0 <20 byte hash>]. *)
Definition p2wpkh_rule (m : frame) : frame :=
  match stack m with
  | [s0; s1] =>
      if is_empty s0 && (len s1 =? 20) then
        let h160 := s1 in
        let m := with_stack [] m in
        let m := with_commands (commands m ++ map DataPush (witness m)) m in
        with_commands (commands m ++ p2pkh_script h160) m
      else m
  | _ => m
  end.

(** The second witness program rule: [0 <32 byte hash>]. *)
Definition p2wsh_rule (m : frame) : flow :=
  match stack m with
  | [s0; s1] =>
      if is_empty s0 && (len s1 =? 32) then
        let s256 := s1 in
        let m := with_stack [] m in
        let m :=
          with_commands
            (commands m ++ map DataPush (removelast (witness m))) m in
        match pop (witness m) with
        | None => Stop (Raise IndexError) m
        | Some (witness_script, _) =>
            if negb (bytes_eqb s256 (sha256 witness_script))
            then Stop (Ok false) m
            else
              try (encode_varint (len witness_script)) m (fun v =>
              try (parse (v ++ witness_script)) m
                (fun witness_script_commands =>
              Continue
                (with_commands (commands m ++ witness_script_commands) m)))
        end
      else Continue m
  | _ => Continue m
  end.

(** The [else] branch: a data element. *)
Definition exec_push (command : bytes) (m : frame) : flow :=
  let m := with_stack (stack m ++ [command]) m in
  match p2sh_rule command m with
  | Stop r m => Stop r m
  | Continue m => p2wsh_rule (p2wpkh_rule m)
  end.

(** The body of the [while len(commands) > 0] loop, after
    [command = commands.pop(0)]. *)
Definition eval_step (z : Z) (command : command) (m : frame) : flow :=
  match command with
  | Opcode n => exec_opcode z n m
  | DataPush d => exec_push d m
  end.

(** The statements after the loop. *)
Definition verdict (m : frame) : res bool * frame :=
  match pop (stack m) with
  | None => (Ok false, m)
  | Some (top, st) =>
      if is_empty top then (Ok false, with_stack st m)
      else (Ok true, with_stack st m)
  end.

(** The loop of [Script.evaluate]; [fuel] bounds the number of commands
    executed. *)
Fixpoint eval_loop (fuel : nat) (z : Z) (m : frame) : res bool * frame :=
  match commands m with
  | [] => verdict m
  | command :: rest =>
      match fuel with
      | O => (OutOfFuel, m)
      | S fuel' =>
          match eval_step z command (with_commands rest m) with
          | Continue m' => eval_loop fuel' z m'
          | Stop r m' => (r, m')
          end
      end
  end.

(** The frame on entry: [commands = self.commands[:]], [stack = []],
    [altstack = []]. *)
Definition enter (self : Script) (witness : list bytes) : frame :=
  Frame self witness self [] [].

(** [Script.evaluate] with the lists it leaves behind. *)
Definition evaluate_frame (fuel : nat) (self : Script) (z : Z)
  (witness : list bytes) : res bool * frame :=
  eval_loop fuel z (enter self witness).

(** [Script.evaluate]: what the caller receives. *)
Definition evaluate (fuel : nat) (self : Script) (z : Z)
  (witness : list bytes) : res bool :=
  fst (evaluate_frame fuel self z witness).

End Evaluator.

(** ** Vocabulary of the statements *)

(** A command as [parse] reads it back: the empty data push and the opcode
    0 are both written as the byte [0x00], which is read as the opcode. *)
Definition canonical (c : command) : command :=
  match c with
  | DataPush [] => Opcode 0
  | _ => c
  end.

(** A command of a validly constructed script: an opcode that fits one byte
    and is none of the push-length markers 1 to 77, or a data push of an
    encodable length (0 to 74 or 76 to 520 bytes). *)
Definition valid_command (c : command) : bool :=
  match c with
  | Opcode n => (n =? 0) || ((78 <=? n) && (n <=? 255))
  | DataPush d => (len d <? 75) || ((75 <? len d) && (len d <=? 520))
  end.

(** No data push of the script is empty. *)
Definition nonempty_push (c : command) : bool :=
  match c with
  | DataPush [] => false
  | _ => true
  end.

(** The frame a pass of the loop ends in. *)
Definition flow_frame (f : flow) : frame :=
  match f with
  | Continue m => m
  | Stop _ m => m
  end.

(** Two frames hold the same [self.commands] and the same [witness]. *)
Definition same_inputs (m m' : frame) : Prop :=
  self_commands m' = self_commands m /\ witness m' = witness m.

(** ** The remaining methods of [Script] *)

(** [Script.__init__(commands=None)]. *)
Definition Script_init (commands : option (list command)) : Script :=
  match commands with
  | None => []
  | Some c => c
  end.

(** [Script.__add__]: [Script(self.commands + other.commands)]. *)
Definition Script_add (self other : Script) : Script :=
  Script_init (Some (self ++ other)).

(** [l[i]] for an index [i >= 0]: [IndexError] when out of range. *)
Definition item {A : Type} (l : list A) (i : nat) : res A :=
  match nth_error l i with
  | Some x => Ok x
  | None => Raise IndexError
  end.

(** [Script.hash160]: the element [self.commands[2]] or
    [self.commands[1]], or [None]. *)
Definition Script_hash160 (self : Script) : res (option command) :=
  if is_p2pkh_script_pubkey self then
    c <- item self 2 ;; Ok (Some c)
  else if is_p2sh_script_pubkey self then
    c <- item self 1 ;; Ok (Some c)
  else Ok None.

Section Addresses.

(** The collaborators of the address builder: the two digests and the
    three address-text encodings of the primitive codec, over a type
    [text] of address strings.  The encodings are handed a byte string and
    the network flag. *)
Variable hash160 : bytes -> bytes.
Variable sha256 : bytes -> bytes.
Variable text : Type.
Variable h160_to_p2pkh_address : bytes -> bool -> text.
Variable h160_to_p2sh_address : bytes -> bool -> text.
Variable encode_bech32_checksum : bytes -> bool -> text.

(** The argument [self.hash160()] of an encoding: a byte string; an
    integer or [None] is no argument for it. *)
Definition as_h160 (v : option command) : res bytes :=
  match v with
  | Some (DataPush h160) => Ok h160
  | _ => Raise TypeError
  end.

(** [Script.address]. *)
Definition address (self : Script) (testnet : bool) : res text :=
  if is_p2pkh_script_pubkey self then
    v <- Script_hash160 self ;;
    h160 <- as_h160 v ;;
    Ok (h160_to_p2pkh_address h160 testnet)
  else if is_p2sh_script_pubkey self then
    v <- Script_hash160 self ;;
    h160 <- as_h160 v ;;
    Ok (h160_to_p2sh_address h160 testnet)
  else Raise ValueError.

(** [Script.p2sh_address]. *)
Definition p2sh_address (self : Script) (testnet : bool) : res text :=
  raw <- raw_serialize self ;;
  let h160 := hash160 raw in
  Ok (h160_to_p2sh_address h160 testnet).

(** [Script.p2wsh_script_pubkey]. *)
Definition p2wsh_script_pubkey (self : Script) : res Script :=
  raw <- raw_serialize self ;;
  let s256 := sha256 raw in
  Ok (p2wsh_script s256).

(** [Script.p2wsh_address]. *)
Definition p2wsh_address (self : Script) (testnet : bool) : res text :=
  script_pubkey <- p2wsh_script_pubkey self ;;
  raw <- raw_serialize script_pubkey ;;
  Ok (encode_bech32_checksum raw testnet).

(** [Script.p2sh_p2wsh_address]. *)
Definition p2sh_p2wsh_address (self : Script) (testnet : bool) : res text :=
  redeem_script <- p2wsh_script_pubkey self ;;
  p2sh_address redeem_script testnet.

End Addresses.

(** A command [raw_serialize] can write: an opcode that fits one byte, or
    a data push of at most 520 bytes that is not 75 bytes long. *)
Definition encodable_command (c : command) : bool :=
  match c with
  | Opcode n => (0 <=? n) && (n <=? 255)
  | DataPush d => (len d <? 75) || ((75 <? len d) && (len d <=? 520))
  end.

(** A command as [parse] can produce it: an opcode that is a byte and none
    of the markers 1 to 77, or a data push of at most 65535 bytes. *)
Definition parsed_command (c : command) : bool :=
  match c with
  | Opcode n => (n =? 0) || ((78 <=? n) && (n <=? 255))
  | DataPush d => len d <=? 65535
  end.

(** The frame [m] of a call on another script object. *)
Definition with_self (c : list command) (m : frame) : frame :=
  Frame c (witness m) (commands m) (stack m) (altstack m).

Definition flow_map (f : frame -> frame) (fl : flow) : flow :=
  match fl with
  | Continue m => Continue (f m)
  | Stop r m => Stop r (f m)
  end.

(** ** Stand-ins used by the closed examples

    The examples below run the evaluator on concrete inputs.  Where the
    path taken does not consult a collaborator, any function can stand in
    for it; the general statements next to each example quantify over all
    collaborators. *)

Definition zeros (n : nat) : bytes := repeat x00 n.

Definition const_digest (n : nat) : bytes -> bytes := fun _ => zeros n.

Definition no_opcodes : Z -> option operation := fun _ => None.

(** * Properties *)

(** ** Bytes and little-endian integers *)

Lemma byte_to_Z_range (b : byte) : 0 <= byte_to_Z b < 256.
Proof.
  unfold byte_to_Z. pose proof (Byte.to_N_bounded b). lia.
Qed.

Lemma byte_to_of_Z_mod (n : Z) : byte_to_Z (byte_of_Z n) = n mod 256.
Proof.
  unfold byte_of_Z, byte_to_Z.
  pose proof (Z.mod_pos_bound n 256 eq_refl) as Hr.
  destruct (Byte.of_N (Z.to_N (n mod 256))) as [b|] eqn:E.
  - apply Byte.to_of_N in E. rewrite E. lia.
  - apply Byte.of_N_None_iff in E. lia.
Qed.

Lemma byte_to_of_Z (n : Z) : 0 <= n < 256 -> byte_to_Z (byte_of_Z n) = n.
Proof.
  intros H. rewrite byte_to_of_Z_mod. now apply Z.mod_small.
Qed.

Lemma byte_of_to_Z (b : byte) : byte_of_Z (byte_to_Z b) = b.
Proof.
  unfold byte_of_Z.
  rewrite Z.mod_small by apply byte_to_Z_range.
  unfold byte_to_Z. rewrite N2Z.id, Byte.of_to_N. reflexivity.
Qed.

Lemma le_bytes_length (k : nat) : forall n, length (le_bytes n k) = k.
Proof.
  induction k as [|k IH]; intros n; simpl; [reflexivity|].
  now rewrite IH.
Qed.

Lemma little_endian_roundtrip (k : nat) :
  forall n, 0 <= n < 256 ^ Z.of_nat k ->
            little_endian_to_int (le_bytes n k) = n.
Proof.
  induction k as [|k IH]; intros n Hn.
  - simpl in *. lia.
  - cbn [le_bytes little_endian_to_int].
    rewrite byte_to_of_Z_mod.
    rewrite Nat2Z.inj_succ, Z.pow_succ_r in Hn by lia.
    rewrite IH.
    + pose proof (Z.div_mod n 256). lia.
    + split.
      * apply Z.div_pos; lia.
      * apply Z.div_lt_upper_bound; lia.
Qed.

Lemma int_to_little_endian_ok (n : Z) (k : nat) :
  0 <= n < 256 ^ Z.of_nat k ->
  int_to_little_endian n k = Ok (le_bytes n k).
Proof.
  intros [H0 H1]. unfold int_to_little_endian.
  apply Z.leb_le in H0. apply Z.ltb_lt in H1.
  now rewrite H0, H1.
Qed.

Lemma len_app {A : Type} (a b : list A) : len (a ++ b) = len a + len b.
Proof. unfold len. rewrite length_app. lia. Qed.

Lemma len_nonneg {A : Type} (a : list A) : 0 <= len a.
Proof. unfold len. lia. Qed.

Lemma bytes_eqb_eq (a b : bytes) : bytes_eqb a b = true <-> a = b.
Proof.
  unfold bytes_eqb. destruct (list_eq_dec Byte.byte_eq_dec a b); split;
    congruence.
Qed.

Lemma bytes_eqb_refl (a : bytes) : bytes_eqb a a = true.
Proof. now apply bytes_eqb_eq. Qed.

Lemma bytes_eqb_neq (a b : bytes) : a <> b -> bytes_eqb a b = false.
Proof.
  intros H. destruct (bytes_eqb a b) eqn:E; [|reflexivity].
  apply bytes_eqb_eq in E. contradiction.
Qed.

(** ** Python lists used as stacks *)

Lemma pop_nil {A : Type} : pop (@nil A) = None.
Proof. reflexivity. Qed.

Lemma pop_app {A : Type} (l : list A) (x : A) : pop (l ++ [x]) = Some (x, l).
Proof.
  unfold pop. rewrite rev_app_distr. simpl. now rewrite rev_involutive.
Qed.

Lemma removelast_snoc {A : Type} (l : list A) (x : A) :
  removelast (l ++ [x]) = l.
Proof. apply removelast_last. Qed.

(** ** Serialization, command by command *)

Lemma raw_serialize_loop_spec (s : list command) :
  forall acc,
    raw_serialize_loop s acc = (b <- serialize_all s ;; Ok (acc ++ b)).
Proof.
  induction s as [|c s IH]; intros acc; simpl.
  - now rewrite app_nil_r.
  - destruct (serialize_command c) as [x| |]; simpl; try reflexivity.
    rewrite IH.
    destruct (serialize_all s) as [y| |]; simpl; try reflexivity.
    now rewrite app_assoc.
Qed.

Lemma raw_serialize_spec (s : Script) : raw_serialize s = serialize_all s.
Proof.
  unfold raw_serialize. rewrite raw_serialize_loop_spec.
  now destruct (serialize_all s).
Qed.

Lemma serialize_all_app (a b : list command) :
  serialize_all (a ++ b) =
  (x <- serialize_all a ;; y <- serialize_all b ;; Ok (x ++ y)).
Proof.
  induction a as [|c a IH]; simpl.
  - now destruct (serialize_all b).
  - destruct (serialize_command c) as [x| |]; simpl; try reflexivity.
    rewrite IH.
    destruct (serialize_all a) as [y| |]; simpl; try reflexivity.
    destruct (serialize_all b) as [w| |]; simpl; try reflexivity.
    now rewrite app_assoc.
Qed.

Lemma serialize_push_small (d : bytes) :
  len d <= 74 -> serialize_command (DataPush d) = Ok (le_bytes (len d) 1 ++ d).
Proof.
  intros H. pose proof (len_nonneg d) as H0. unfold serialize_command.
  replace (len d <? 75) with true by (symmetry; apply Z.ltb_lt; lia).
  rewrite int_to_little_endian_ok by (change (256 ^ Z.of_nat 1) with 256; lia).
  reflexivity.
Qed.

Lemma serialize_push_medium (d : bytes) :
  76 <= len d <= 255 ->
  serialize_command (DataPush d) = Ok ([x4c] ++ le_bytes (len d) 1 ++ d).
Proof.
  intros H. unfold serialize_command.
  replace (len d <? 75) with false by (symmetry; apply Z.ltb_ge; lia).
  replace (75 <? len d) with true by (symmetry; apply Z.ltb_lt; lia).
  replace (len d <? 0x100) with true by (symmetry; apply Z.ltb_lt; lia).
  cbn [andb].
  rewrite (int_to_little_endian_ok (len d) 1)
    by (change (256 ^ Z.of_nat 1) with 256; lia).
  reflexivity.
Qed.

Lemma serialize_push_large (d : bytes) :
  256 <= len d <= 520 ->
  serialize_command (DataPush d) = Ok ([x4d] ++ le_bytes (len d) 2 ++ d).
Proof.
  intros H. unfold serialize_command.
  replace (len d <? 75) with false by (symmetry; apply Z.ltb_ge; lia).
  replace (len d <? 0x100) with false by (symmetry; apply Z.ltb_ge; lia).
  rewrite andb_false_r.
  replace (0x100 <=? len d) with true by (symmetry; apply Z.leb_le; lia).
  replace (len d <=? 520) with true by (symmetry; apply Z.leb_le; lia).
  cbn [andb].
  rewrite (int_to_little_endian_ok (len d) 2)
    by (change (256 ^ Z.of_nat 2) with 65536; lia).
  reflexivity.
Qed.

Lemma serialize_push_unencodable (d : bytes) :
  len d = 75 \/ 520 < len d ->
  serialize_command (DataPush d) = Raise ValueError.
Proof.
  intros H. unfold serialize_command.
  replace (len d <? 75) with false by (symmetry; apply Z.ltb_ge; lia).
  destruct H as [H|H].
  - rewrite H. reflexivity.
  - replace (len d <? 0x100) with false by (symmetry; apply Z.ltb_ge; lia).
    replace (len d <=? 520) with false by (symmetry; apply Z.leb_gt; lia).
    now rewrite !andb_false_r.
Qed.

Lemma raw_serialize_single (c : command) :
  raw_serialize [c] = (x <- serialize_command c ;; Ok x).
Proof.
  rewrite raw_serialize_spec. simpl.
  destruct (serialize_command c); simpl; try reflexivity.
  now rewrite app_nil_r.
Qed.

(** ** Push-encoding tiers *)

(** C6: a push of 10 bytes is serialized as the byte [0x0a] and the data, a
    push of 200 bytes as the marker 76, the byte 200 and the data, a push
    of 300 bytes as the marker 77, the two little-endian bytes of 300 and
    the data; in general a push of 0 to 74 bytes gets one length byte, one
    of 76 to 255 bytes the marker 76 and one length byte, one of 256 to
    520 bytes the marker 77 and two little-endian length bytes. *)
Theorem push_encoding_tiers (d : bytes) :
  (len d = 10 -> raw_serialize [DataPush d] = Ok (x0a :: d)) /\
  (len d = 200 -> raw_serialize [DataPush d] = Ok (x4c :: xc8 :: d)) /\
  (len d = 300 -> raw_serialize [DataPush d] = Ok (x4d :: x2c :: x01 :: d)) /\
  (0 <= len d <= 74 ->
   raw_serialize [DataPush d] = Ok (le_bytes (len d) 1 ++ d)) /\
  (76 <= len d <= 255 ->
   raw_serialize [DataPush d] = Ok ([byte_of_Z 76] ++ le_bytes (len d) 1 ++ d)) /\
  (256 <= len d <= 520 ->
   raw_serialize [DataPush d] = Ok ([byte_of_Z 77] ++ le_bytes (len d) 2 ++ d)).
Proof.
  rewrite raw_serialize_single.
  repeat split; intros H.
  - rewrite serialize_push_small by lia. rewrite H. reflexivity.
  - rewrite serialize_push_medium by lia. rewrite H. reflexivity.
  - rewrite serialize_push_large by lia. rewrite H. reflexivity.
  - rewrite serialize_push_small by lia. reflexivity.
  - rewrite serialize_push_medium by lia. reflexivity.
  - rewrite serialize_push_large by lia. reflexivity.
Qed.

Lemma push_encoding_tiers_witness :
  raw_serialize [DataPush (zeros 10)] = Ok (x0a :: zeros 10) /\
  raw_serialize [DataPush (zeros 200)] = Ok (x4c :: xc8 :: zeros 200) /\
  raw_serialize [DataPush (zeros 300)] = Ok (x4d :: x2c :: x01 :: zeros 300) /\
  raw_serialize [DataPush (zeros 74)] = Ok (le_bytes 74 1 ++ zeros 74) /\
  raw_serialize [DataPush (zeros 76)]
  = Ok ([byte_of_Z 76] ++ le_bytes 76 1 ++ zeros 76) /\
  raw_serialize [DataPush (zeros 520)]
  = Ok ([byte_of_Z 77] ++ le_bytes 520 2 ++ zeros 520).
Proof.
  split; [|split; [|split; [|split; [|split]]]].
  - apply (proj1 (push_encoding_tiers (zeros 10))). reflexivity.
  - apply (proj1 (proj2 (push_encoding_tiers (zeros 200)))). reflexivity.
  - apply (proj1 (proj2 (proj2 (push_encoding_tiers (zeros 300))))).
    reflexivity.
  - apply (proj1 (proj2 (proj2 (proj2 (push_encoding_tiers (zeros 74)))))).
    vm_compute. split; discriminate.
  - apply (proj1 (proj2 (proj2 (proj2 (proj2
             (push_encoding_tiers (zeros 76))))))).
    vm_compute. split; discriminate.
  - apply (proj2 (proj2 (proj2 (proj2 (proj2
             (push_encoding_tiers (zeros 520))))))).
    vm_compute. split; discriminate.
Defined.

(** ** The gap at 75 bytes *)

Lemma serialize_all_nonexhausted (s : list command) :
  serialize_all s <> OutOfFuel.
Proof.
  induction s as [|c s IH]; cbn [serialize_all]; [discriminate|].
  destruct (serialize_command c) as [x|e|] eqn:E; cbn [bind].
  - destruct (serialize_all s); cbn [bind]; congruence.
  - discriminate.
  - exfalso. revert E. unfold serialize_command, int_to_little_endian.
    destruct c as [n|d].
    + destruct (_ && _); discriminate.
    + repeat (destruct (_ && _) || destruct (_ <? _)); cbn [bind];
        discriminate.
Qed.

Lemma serialize_all_raises_at (pre post : list command) (c : command)
  (e : exn) :
  serialize_command c = Raise e ->
  exists e', serialize_all (pre ++ c :: post) = Raise e'
             /\ ((exists b, serialize_all pre = Ok b) -> e' = e).
Proof.
  intros Hc. rewrite serialize_all_app. simpl. rewrite Hc. simpl.
  destruct (serialize_all pre) as [b|e0|] eqn:E; simpl.
  - exists e. split; [reflexivity|]. intros _. reflexivity.
  - exists e0. split; [reflexivity|]. intros [b Hb]. discriminate.
  - exfalso. exact (serialize_all_nonexhausted pre E).
Qed.

(** C7: a script that holds a data push of exactly 75 bytes cannot be
    serialized.  The push matches neither [length < 75] nor any of the two
    tests above 75 and ends in the [else] branch that raises [ValueError],
    the branch pushes of more than 520 bytes end in; the script has no
    raw serialization and no serialization, and the exception is that
    [ValueError] whenever the commands before the push serialize. *)
Theorem push_of_75_bytes_not_serializable (self : Script) (d : bytes)
  (pre post : list command) :
  self = pre ++ DataPush d :: post ->
  len d = 75 ->
  serialize_command (DataPush d) = Raise ValueError
  /\ (forall d', 520 < len d' ->
                 serialize_command (DataPush d') = Raise ValueError)
  /\ (exists e, raw_serialize self = Raise e /\ serialize self = Raise e
                /\ ((exists b, raw_serialize pre = Ok b) -> e = ValueError)).
Proof.
  intros -> H75.
  assert (Hc : serialize_command (DataPush d) = Raise ValueError)
    by (apply serialize_push_unencodable; now left).
  split; [exact Hc|]. split.
  - intros d' H. apply serialize_push_unencodable. now right.
  - destruct (serialize_all_raises_at pre post _ _ Hc) as (e & He & Hv).
    exists e. unfold serialize. rewrite !raw_serialize_spec, He.
    repeat split; auto.
Qed.

Lemma push_of_75_bytes_not_serializable_witness :
  serialize_command (DataPush (zeros 75)) = Raise ValueError
  /\ (forall d', 520 < len d' ->
                 serialize_command (DataPush d') = Raise ValueError)
  /\ (exists e,
         raw_serialize [Opcode 0x76; DataPush (zeros 75); Opcode 0xac]
         = Raise e
         /\ serialize [Opcode 0x76; DataPush (zeros 75); Opcode 0xac]
            = Raise e
         /\ ((exists b, raw_serialize [Opcode 0x76] = Ok b)
             -> e = ValueError)).
Proof.
  apply (push_of_75_bytes_not_serializable
           [Opcode 0x76; DataPush (zeros 75); Opcode 0xac] (zeros 75)
           [Opcode 0x76] [Opcode 0xac]); reflexivity.
Defined.

(** ** Pattern classification *)

Lemma push_len_20_not_32 (c : command) :
  is_push_of_len c 20 && is_push_of_len c 32 = false.
Proof.
  destruct c as [n|d]; simpl; [reflexivity|].
  destruct (len d =? 20) eqn:E; [|reflexivity].
  apply Z.eqb_eq in E. rewrite E. reflexivity.
Qed.

(** C8: the four pattern predicates are mutually exclusive: of
    [is_p2pkh_script_pubkey], [is_p2sh_script_pubkey],
    [is_p2wpkh_script_pubkey] and [is_p2wsh_script_pubkey] at most one is
    true of a script, so no two of them hold together. *)
Theorem pattern_classification_exclusive (self : Script) :
  (Nat.b2n (is_p2pkh_script_pubkey self)
   + Nat.b2n (is_p2sh_script_pubkey self)
   + Nat.b2n (is_p2wpkh_script_pubkey self)
   + Nat.b2n (is_p2wsh_script_pubkey self) <= 1)%nat
  /\ is_p2pkh_script_pubkey self && is_p2sh_script_pubkey self = false
  /\ is_p2pkh_script_pubkey self && is_p2wpkh_script_pubkey self = false
  /\ is_p2pkh_script_pubkey self && is_p2wsh_script_pubkey self = false
  /\ is_p2sh_script_pubkey self && is_p2wpkh_script_pubkey self = false
  /\ is_p2sh_script_pubkey self && is_p2wsh_script_pubkey self = false
  /\ is_p2wpkh_script_pubkey self && is_p2wsh_script_pubkey self = false.
Proof.
  destruct self as [|c0 [|c1 [|c2 [|c3 [|c4 [|c5 r]]]]]];
    cbn [is_p2pkh_script_pubkey is_p2sh_script_pubkey
         is_p2wpkh_script_pubkey is_p2wsh_script_pubkey];
    try (cbn; repeat split; solve [lia | reflexivity
                                   | apply andb_false_r]).
  - (* two commands *)
    pose proof (push_len_20_not_32 c1) as H.
    destruct (is_op c0 0), (is_push_of_len c1 20), (is_push_of_len c1 32);
      cbn in *; repeat split; solve [lia | reflexivity | discriminate].
  - (* three commands *)
    destruct (is_op c0 169 && is_push_of_len c1 20 && is_op c2 135);
      cbn; repeat split; solve [lia | reflexivity].
  - (* five commands *)
    destruct (is_op c0 118 && is_op c1 169 && is_push_of_len c2 20
              && is_op c3 136 && is_op c4 172);
      cbn; repeat split; solve [lia | reflexivity].
Qed.

(** ** Reading from a stream *)

Lemma read_app (a b : bytes) : read (len a) (a ++ b) = (a, b).
Proof.
  unfold read, len. rewrite Nat2Z.id.
  rewrite firstn_app, skipn_app, firstn_all, skipn_all, Nat.sub_diag.
  cbn. now rewrite app_nil_r.
Qed.

Lemma read_le_bytes (k : nat) (z n : Z) (rest : bytes) :
  z = Z.of_nat k ->
  read z (le_bytes n k ++ rest) = (le_bytes n k, rest).
Proof.
  intros ->. rewrite <- (le_bytes_length k n) at 1. apply read_app.
Qed.

Lemma read_rest_length (n : Z) (s : stream) :
  (length (snd (read n s)) <= length s)%nat.
Proof.
  unfold read. cbn [snd]. rewrite length_skipn. lia.
Qed.

Lemma read_rest_len (n : Z) (s : stream) :
  0 <= n -> len (snd (read n s)) = Z.max 0 (len s - n).
Proof.
  intros H. unfold read, len. cbn [snd]. rewrite length_skipn. lia.
Qed.

Lemma little_endian_nonneg (b : bytes) : 0 <= little_endian_to_int b.
Proof.
  induction b as [|x b IH]; cbn [little_endian_to_int]; [lia|].
  pose proof (byte_to_Z_range x). lia.
Qed.

Lemma read_varint_encode (n : Z) (v rest : bytes) :
  encode_varint n = Ok v -> read_varint (v ++ rest) = Ok (n, rest).
Proof.
  unfold encode_varint. intros H.
  destruct (n <? 0) eqn:E0; [discriminate|]. apply Z.ltb_ge in E0.
  destruct (n <? 253) eqn:E1.
  { apply Z.ltb_lt in E1. inversion H; subst v. cbn [app read_varint].
    rewrite byte_to_of_Z by lia.
    replace (n =? 253) with false by (symmetry; apply Z.eqb_neq; lia).
    replace (n =? 254) with false by (symmetry; apply Z.eqb_neq; lia).
    replace (n =? 255) with false by (symmetry; apply Z.eqb_neq; lia).
    reflexivity. }
  apply Z.ltb_ge in E1.
  destruct (n <? 65536) eqn:E2.
  { apply Z.ltb_lt in E2.
    rewrite int_to_little_endian_ok in H
      by (change (256 ^ Z.of_nat 2) with 65536; lia).
    cbn [bind] in H.
    assert (Hv : v = xfd :: le_bytes n 2) by congruence.
    rewrite Hv. clear H Hv.
    change ((xfd :: le_bytes n 2) ++ rest)
      with (xfd :: (le_bytes n 2 ++ rest)).
    unfold read_varint.
    change (byte_to_Z xfd =? 253) with true. cbv iota.
    rewrite (read_le_bytes 2) by reflexivity.
    rewrite little_endian_roundtrip
      by (change (256 ^ Z.of_nat 2) with 65536; lia).
    reflexivity. }
  apply Z.ltb_ge in E2.
  destruct (n <? 4294967296) eqn:E3.
  { apply Z.ltb_lt in E3.
    rewrite int_to_little_endian_ok in H
      by (change (256 ^ Z.of_nat 4) with 4294967296; lia).
    cbn [bind] in H.
    assert (Hv : v = xfe :: le_bytes n 4) by congruence.
    rewrite Hv. clear H Hv.
    change ((xfe :: le_bytes n 4) ++ rest)
      with (xfe :: (le_bytes n 4 ++ rest)).
    unfold read_varint.
    change (byte_to_Z xfe =? 253) with false.
    change (byte_to_Z xfe =? 254) with true. cbv iota.
    rewrite (read_le_bytes 4) by reflexivity.
    rewrite little_endian_roundtrip
      by (change (256 ^ Z.of_nat 4) with 4294967296; lia).
    reflexivity. }
  apply Z.ltb_ge in E3.
  destruct (n <? 18446744073709551616) eqn:E4; [|discriminate].
  apply Z.ltb_lt in E4.
  rewrite int_to_little_endian_ok in H
    by (change (256 ^ Z.of_nat 8) with 18446744073709551616; lia).
  cbn [bind] in H.
  assert (Hv : v = xff :: le_bytes n 8) by congruence.
  rewrite Hv. clear H Hv.
  change ((xff :: le_bytes n 8) ++ rest)
    with (xff :: (le_bytes n 8 ++ rest)).
  unfold read_varint.
  change (byte_to_Z xff =? 253) with false.
  change (byte_to_Z xff =? 254) with false.
  change (byte_to_Z xff =? 255) with true. cbv iota.
  rewrite (read_le_bytes 8) by reflexivity.
  rewrite little_endian_roundtrip
    by (change (256 ^ Z.of_nat 8) with 18446744073709551616; lia).
  reflexivity.
Qed.

(** ** Parsing what was serialized *)

Ltac zbool :=
  repeat match goal with
         | |- context [?a <=? ?b] => destruct (Z.leb_spec a b); try lia
         | |- context [?a <? ?b] => destruct (Z.ltb_spec a b); try lia
         | |- context [?a =? ?b] => destruct (Z.eqb_spec a b); try lia
         end;
  cbn [andb orb negb].

Lemma parse_loop_exit (fuel : nat) (s : stream) (count : Z)
  (acc : list command) :
  parse_loop fuel s count count acc = Ok acc.
Proof.
  destruct fuel; cbn [parse_loop];
    rewrite Z.ltb_irrefl, Z.eqb_refl; reflexivity.
Qed.

Lemma parse_loop_opcode (fuel : nat) (n : Z) (s : stream) (count length : Z)
  (acc : list command) :
  count < length -> n = 0 \/ 78 <= n <= 255 ->
  parse_loop (S fuel) (byte_of_Z n :: s) count length acc =
  parse_loop fuel s (count + 1) length (acc ++ [Opcode n]).
Proof.
  intros Hc Hn. cbn [parse_loop].
  rewrite byte_to_of_Z by lia. zbool; reflexivity.
Qed.

Lemma parse_loop_push_small (fuel : nat) (d : bytes) (s : stream)
  (count length : Z) (acc : list command) :
  count < length -> 1 <= len d <= 74 ->
  parse_loop (S fuel) (byte_of_Z (len d) :: d ++ s) count length acc =
  parse_loop fuel s (count + 1 + len d) length (acc ++ [DataPush d]).
Proof.
  intros Hc Hn. cbn [parse_loop].
  rewrite byte_to_of_Z by lia. zbool; now rewrite read_app.
Qed.

Lemma parse_loop_push_medium (fuel : nat) (d : bytes) (s : stream)
  (count length : Z) (acc : list command) :
  count < length -> 76 <= len d <= 255 ->
  parse_loop (S fuel) (x4c :: byte_of_Z (len d) :: d ++ s) count length acc =
  parse_loop fuel s (count + 1 + (len d + 1)) length (acc ++ [DataPush d]).
Proof.
  intros Hc Hn. cbn [parse_loop].
  change (byte_to_Z x4c) with 76.
  change (read 1 (byte_of_Z (len d) :: d ++ s))
    with ([byte_of_Z (len d)], d ++ s).
  cbn [little_endian_to_int]. rewrite byte_to_of_Z by lia.
  replace (len d + 256 * 0) with (len d) by lia.
  zbool; now rewrite read_app.
Qed.

Lemma parse_loop_push_large (fuel : nat) (d : bytes) (s : stream)
  (count length : Z) (acc : list command) :
  count < length -> 256 <= len d <= 520 ->
  parse_loop (S fuel) (x4d :: le_bytes (len d) 2 ++ d ++ s) count length acc =
  parse_loop fuel s (count + 1 + (len d + 2)) length (acc ++ [DataPush d]).
Proof.
  intros Hc Hn. cbn [parse_loop].
  change (byte_to_Z x4d) with 77.
  change ((1 <=? 77) && (77 <=? 75)) with false.
  change (77 =? 76) with false. change (77 =? 77) with true. cbv iota.
  rewrite (read_le_bytes 2) by reflexivity.
  rewrite little_endian_roundtrip
    by (change (256 ^ Z.of_nat 2) with 65536; lia).
  zbool; now rewrite read_app.
Qed.

Lemma valid_opcode_serialized (n : Z) :
  valid_command (Opcode n) = true ->
  (n = 0 \/ 78 <= n <= 255)
  /\ serialize_command (Opcode n) = Ok [byte_of_Z n].
Proof.
  cbn [valid_command serialize_command]. intros H.
  assert (Hn : n = 0 \/ 78 <= n <= 255) by (revert H; zbool; discriminate).
  split; [exact Hn|].
  rewrite int_to_little_endian_ok
    by (change (256 ^ Z.of_nat 1) with 256; lia).
  reflexivity.
Qed.

Lemma valid_push_length (d : bytes) :
  valid_command (DataPush d) = true ->
  0 <= len d <= 74 \/ 76 <= len d <= 255 \/ 256 <= len d <= 520.
Proof.
  cbn [valid_command]. pose proof (len_nonneg d).
  zbool; try discriminate; lia.
Qed.

Lemma len_zero_nil {A : Type} (l : list A) : len l = 0 -> l = [].
Proof.
  destruct l; [reflexivity|]. unfold len. cbn [length]. lia.
Qed.

(** One pass of the loop of [parse] reads back one serialized command. *)
Lemma parse_loop_command (c : command) (enc : bytes) :
  valid_command c = true ->
  serialize_command c = Ok enc ->
  1 <= len enc
  /\ forall fuel s count length acc,
      count < length ->
      parse_loop (S fuel) (enc ++ s) count length acc =
      parse_loop fuel s (count + len enc) length (acc ++ [canonical c]).
Proof.
  intros Hv He. destruct c as [n|d].
  - destruct (valid_opcode_serialized n Hv) as [Hn Hs].
    rewrite Hs in He. injection He as <-. split; [cbn; lia|].
    intros. cbn [app canonical]. change (len [byte_of_Z n]) with 1.
    now apply parse_loop_opcode.
  - destruct (valid_push_length d Hv) as [H|[H|H]].
    + rewrite serialize_push_small in He by lia.
      assert (E : enc = le_bytes (len d) 1 ++ d) by congruence.
      subst enc. clear He.
      split; [unfold len; rewrite ?length_app, ?le_bytes_length;
              cbn [length]; lia|].
      intros. change (le_bytes (len d) 1) with [byte_of_Z (len d)].
      rewrite len_app. change (len [byte_of_Z (len d)]) with 1.
      cbn [app].
      destruct (Z.eq_dec (len d) 0) as [E|E].
      * rewrite (len_zero_nil d E). cbn [app canonical]. unfold len. cbn [List.length].
        change (Z.of_nat 0) with 0.
        replace (count + (1 + 0)) with (count + 1) by lia.
        apply parse_loop_opcode; [assumption|now left].
      * replace (canonical (DataPush d)) with (DataPush d)
          by (destruct d; [contradiction E; reflexivity|reflexivity]).
        replace (count + (1 + len d)) with (count + 1 + len d) by lia.
        apply parse_loop_push_small; [assumption|lia].
    + rewrite serialize_push_medium in He by lia.
      assert (E : enc = [x4c] ++ le_bytes (len d) 1 ++ d) by congruence.
      subst enc. clear He.
      split; [unfold len; rewrite ?length_app, ?le_bytes_length;
              cbn [length]; lia|].
      intros. change (le_bytes (len d) 1) with [byte_of_Z (len d)].
      replace (canonical (DataPush d)) with (DataPush d)
        by (destruct d; [cbn in H; lia|reflexivity]).
      rewrite !len_app. change (len [x4c]) with 1.
      change (len [byte_of_Z (len d)]) with 1. cbn [app].
      replace (count + (1 + (1 + len d))) with (count + 1 + (len d + 1))
        by lia.
      apply parse_loop_push_medium; [assumption|lia].
    + rewrite serialize_push_large in He by lia.
      assert (E : enc = [x4d] ++ le_bytes (len d) 2 ++ d) by congruence.
      subst enc. clear He.
      split; [unfold len; rewrite ?length_app, ?le_bytes_length;
              cbn [length]; lia|].
      intros.
      replace (canonical (DataPush d)) with (DataPush d)
        by (destruct d; [cbn in H; lia|reflexivity]).
      rewrite !len_app. change (len [x4d]) with 1.
      replace (len (le_bytes (len d) 2)) with 2
        by (unfold len at 1; now rewrite le_bytes_length).
      rewrite <- !app_assoc. cbn [app].
      replace (count + (1 + (2 + len d))) with (count + 1 + (len d + 2))
        by lia.
      apply parse_loop_push_large; [assumption|lia].
Qed.

Lemma parse_loop_all (cmds : list command) :
  forall raw fuel count acc,
    forallb valid_command cmds = true ->
    serialize_all cmds = Ok raw ->
    (length raw <= fuel)%nat ->
    parse_loop fuel raw count (count + len raw) acc =
    Ok (acc ++ map canonical cmds).
Proof.
  induction cmds as [|c cmds IH]; intros raw fuel count acc Hv Hs Hf.
  - cbn in Hs. injection Hs as <-. cbn [map]. rewrite app_nil_r.
    change (len (@nil byte)) with 0. rewrite Z.add_0_r.
    apply parse_loop_exit.
  - cbn [forallb] in Hv. apply andb_true_iff in Hv as [Hc Hv].
    cbn [serialize_all] in Hs.
    destruct (serialize_command c) as [x| |] eqn:Ex; try discriminate.
    destruct (serialize_all cmds) as [y| |] eqn:Ey; try discriminate.
    cbn [bind] in Hs. assert (E : raw = x ++ y) by congruence.
    subst raw. clear Hs.
    destruct (parse_loop_command c x Hc Ex) as [Hx Hstep].
    rewrite length_app in Hf.
    destruct fuel as [|fuel]; [unfold len in Hx; lia|].
    rewrite Hstep by (rewrite len_app; pose proof (len_nonneg y); lia).
    rewrite len_app, Z.add_assoc.
    rewrite (IH y fuel (count + len x) (acc ++ [canonical c]) Hv eq_refl)
      by (unfold len in Hx; lia).
    cbn [map]. now rewrite <- app_assoc.
Qed.

Lemma serialize_canonical (c : command) :
  serialize_command (canonical c) = serialize_command c.
Proof.
  destruct c as [n|[|b d]]; reflexivity.
Qed.

Lemma serialize_all_canonical (s : list command) :
  serialize_all (map canonical s) = serialize_all s.
Proof.
  induction s as [|c s IH]; cbn [map serialize_all]; [reflexivity|].
  now rewrite serialize_canonical, IH.
Qed.

Lemma canonical_nonempty (s : list command) :
  forallb nonempty_push s = true -> map canonical s = s.
Proof.
  induction s as [|c s IH]; cbn [forallb map]; [reflexivity|].
  intros H. apply andb_true_iff in H as [Hc Hs]. rewrite (IH Hs).
  destruct c as [n|[|b d]]; try reflexivity. discriminate.
Qed.

Lemma parse_serialized (s : Script) (bs : bytes) :
  forallb valid_command s = true ->
  serialize s = Ok bs ->
  parse bs = Ok (map canonical s).
Proof.
  intros Hv Hs. unfold serialize in Hs. rewrite raw_serialize_spec in Hs.
  destruct (serialize_all s) as [raw| |] eqn:Er; try discriminate.
  cbn [bind] in Hs. unfold encode_varstr in Hs.
  destruct (encode_varint (len raw)) as [v| |] eqn:Ev; try discriminate.
  cbn [bind] in Hs. assert (E : bs = v ++ raw) by congruence. subst bs.
  unfold parse. rewrite (read_varint_encode _ _ _ Ev). cbn [bind].
  apply (parse_loop_all s raw (length raw) 0 [] Hv Er). lia.
Qed.

(** A validly constructed script has a raw serialization, and a
    serialization when that is shorter than 2^64 bytes. *)
Lemma encode_varint_ok (n : Z) :
  0 <= n < 2 ^ 64 -> exists v, encode_varint n = Ok v.
Proof.
  intros H. change (2 ^ 64) with 18446744073709551616 in H.
  unfold encode_varint. zbool; try (eexists; reflexivity);
    rewrite int_to_little_endian_ok;
    try (eexists; reflexivity).
  - change (256 ^ Z.of_nat 2) with 65536. lia.
  - change (256 ^ Z.of_nat 4) with 4294967296. lia.
  - change (256 ^ Z.of_nat 8) with 18446744073709551616. lia.
Qed.

Lemma valid_command_serializes (c : command) :
  valid_command c = true -> exists enc, serialize_command c = Ok enc.
Proof.
  intros H. destruct c as [n|d].
  - destruct (valid_opcode_serialized n H) as [_ Hs]. eauto.
  - destruct (valid_push_length d H) as [Hl|[Hl|Hl]].
    + rewrite serialize_push_small by lia. eauto.
    + rewrite serialize_push_medium by lia. eauto.
    + rewrite serialize_push_large by lia. eauto.
Qed.

Lemma valid_script_serializes (s : Script) :
  forallb valid_command s = true ->
  exists raw, raw_serialize s = Ok raw
              /\ (len raw < 2 ^ 64 -> exists bs, serialize s = Ok bs).
Proof.
  intros Hv.
  assert (H : exists raw, serialize_all s = Ok raw).
  { induction s as [|c s IH]; cbn [serialize_all]; [eauto|].
    cbn [forallb] in Hv. apply andb_true_iff in Hv as [Hc Hs].
    destruct (valid_command_serializes c Hc) as [x ->].
    destruct (IH Hs) as [y ->]. cbn [bind]. eauto. }
  destruct H as [raw H]. exists raw. unfold serialize.
  rewrite raw_serialize_spec, H. split; [reflexivity|].
  intros Hl. cbn [bind]. unfold encode_varstr.
  destruct (encode_varint_ok (len raw)) as [v ->];
    [pose proof (len_nonneg raw); lia|].
  cbn [bind]. eauto.
Qed.

(** C1, as the code has it: for every validly constructed script whose
    serialization succeeds, parsing the serialized form yields the command
    list of the script with every empty data push turned into the opcode 0
    (so the command list itself when no data push is empty), and
    serializing the parsed script again reproduces the original bytes
    exactly. *)
Theorem serialize_parse_roundtrip (s : Script) (bs : bytes) :
  forallb valid_command s = true ->
  serialize s = Ok bs ->
  parse bs = Ok (map canonical s)
  /\ serialize (map canonical s) = Ok bs
  /\ (forallb nonempty_push s = true -> parse bs = Ok s).
Proof.
  intros Hv Hs. pose proof (parse_serialized s bs Hv Hs) as Hp.
  split; [exact Hp|]. split.
  - unfold serialize in *. rewrite raw_serialize_spec in *.
    now rewrite serialize_all_canonical.
  - intros Hn. now rewrite (canonical_nonempty s Hn) in Hp.
Qed.

Lemma serialize_parse_roundtrip_witness :
  parse [x06; x02; x02; x03; xa9; x01; x01]
  = Ok (map canonical [DataPush [x02; x03]; Opcode 0xa9; DataPush [x01]])
  /\ serialize
       (map canonical [DataPush [x02; x03]; Opcode 0xa9; DataPush [x01]])
     = Ok [x06; x02; x02; x03; xa9; x01; x01]
  /\ (forallb nonempty_push
         [DataPush [x02; x03]; Opcode 0xa9; DataPush [x01]] = true ->
      parse [x06; x02; x02; x03; xa9; x01; x01]
      = Ok [DataPush [x02; x03]; Opcode 0xa9; DataPush [x01]]).
Proof.
  apply (serialize_parse_roundtrip
           [DataPush [x02; x03]; Opcode 0xa9; DataPush [x01]]
           [x06; x02; x02; x03; xa9; x01; x01]); reflexivity.
Defined.

(** The script that holds one empty data push is validly constructed and
    serializes to the bytes [01 00], which parse to the script that holds
    the opcode 0: the round trip does not give the script back. *)
Lemma roundtrip_loses_empty_push :
  forallb valid_command [DataPush []] = true
  /\ serialize [DataPush []] = Ok [x01; x00]
  /\ parse [x01; x00] = Ok [Opcode 0]
  /\ parse [x01; x00] <> Ok [DataPush []].
Proof.
  repeat split; try reflexivity. discriminate.
Qed.

(** ** What [parse] can raise *)

Lemma len_skipn (n : Z) (s : bytes) :
  0 <= n -> len (skipn (Z.to_nat n) s) = Z.max 0 (len s - n).
Proof.
  intros H. unfold len. rewrite length_skipn. lia.
Qed.

(** The budget handed to the loop by [parse] is never exhausted. *)
Lemma parse_loop_total (fuel : nat) :
  forall s count length acc,
    (List.length s <= fuel)%nat ->
    parse_loop fuel s count length acc <> OutOfFuel.
Proof.
  induction fuel as [|fuel IH]; intros s count length acc Hf.
  - destruct s; [|cbn [List.length] in Hf; lia]. cbn [parse_loop].
    destruct (count <? length); [discriminate|].
    destruct (negb _); discriminate.
  - cbn [parse_loop]. unfold read.
    destruct (count <? length); [|destruct (negb _); discriminate].
    destruct s as [|c s1]; [discriminate|].
    repeat match goal with
           | |- context [if ?b then _ else _] => destruct b
           end;
      apply IH; rewrite ?length_skipn; cbn [List.length] in *; lia.
Qed.

Lemma parse_total (s : stream) : parse s <> OutOfFuel.
Proof.
  unfold parse, read_varint, read. destruct s as [|i s1]; [discriminate|].
  repeat match goal with
         | |- context [if ?b then _ else _] => destruct b
         end;
    cbn [bind]; apply parse_loop_total; lia.
Qed.

(** On a stream that holds exactly the bytes still to be counted, the
    loop ends with a script or with [SyntaxError]. *)
Lemma parse_loop_exact (fuel : nat) :
  forall s count length acc,
    (List.length s <= fuel)%nat ->
    count + len s = length \/ length < count ->
    (exists cmds, parse_loop fuel s count length acc = Ok cmds)
    \/ parse_loop fuel s count length acc = Raise SyntaxError.
Proof.
  induction fuel as [|fuel IH]; intros s count length acc Hf Hi.
  - destruct s; [|cbn [List.length] in Hf; lia]. cbn [parse_loop].
    change (len (@nil byte)) with 0 in Hi.
    destruct (Z.ltb_spec count length); [lia|].
    destruct (negb _); [now right|left; eauto].
  - cbn [parse_loop]. unfold read.
    destruct (Z.ltb_spec count length);
      [|destruct (negb _); [now right|left; eauto]].
    destruct s as [|c s1];
      [change (len (@nil byte)) with 0 in Hi; lia|].
    assert (Hs : len (c :: s1) = 1 + len s1)
      by (unfold len; cbn [List.length]; lia).
    rewrite Hs in Hi. pose proof (len_nonneg s1) as Hs1.
    pose proof (byte_to_Z_range c) as Hb.
    pose proof (little_endian_nonneg (firstn (Z.to_nat 1) s1)) as H1.
    pose proof (little_endian_nonneg (firstn (Z.to_nat 2) s1)) as H2.
    repeat match goal with
           | |- context [if ?b then _ else _] => destruct b eqn:?
           end.
    + apply IH;
        [rewrite ?length_skipn; cbn [List.length] in *; lia|].
      rewrite len_skipn by lia. lia.
    + apply IH;
        [rewrite ?length_skipn; cbn [List.length] in *; lia|].
      rewrite !len_skipn by lia. lia.
    + apply IH;
        [rewrite ?length_skipn; cbn [List.length] in *; lia|].
      rewrite !len_skipn by lia. lia.
    + apply IH; [cbn [List.length] in *; lia|]. lia.
Qed.

(** Decoding a nested script, framed from the pushed bytes as the two
    expansion rules do it, yields a script or raises [SyntaxError]. *)
Lemma parse_framed (d v : bytes) :
  encode_varint (len d) = Ok v ->
  (exists cmds, parse (v ++ d) = Ok cmds)
  \/ parse (v ++ d) = Raise SyntaxError.
Proof.
  intros Hv. unfold parse. rewrite (read_varint_encode _ _ _ Hv).
  cbn [bind]. apply parse_loop_exact; [lia|]. left. lia.
Qed.

(** ** The evaluator, pass by pass *)

Section EvaluatorProperties.

Variable hash160 : bytes -> bytes.
Variable sha256 : bytes -> bytes.
Variable OP_CODE_FUNCTIONS : Z -> option operation.

Local Abbreviation run := (eval_loop hash160 sha256 OP_CODE_FUNCTIONS).
Local Abbreviation step := (eval_step hash160 sha256 OP_CODE_FUNCTIONS).
Local Abbreviation push := (exec_push hash160 sha256).
Local Abbreviation opcode := (exec_opcode OP_CODE_FUNCTIONS).
Local Abbreviation call := (invoke OP_CODE_FUNCTIONS).
Local Abbreviation p2sh := (p2sh_rule hash160).
Local Abbreviation p2wsh := (p2wsh_rule sha256).

Local Arguments parse : simpl never.
Local Arguments encode_varint : simpl never.
Local Arguments encode_varstr : simpl never.
Local Arguments pop : simpl never.

Ltac frame_simpl :=
  unfold with_commands, with_stack, with_altstack;
  cbn [self_commands witness commands stack altstack].

Lemma eval_loop_nil (fuel : nat) (z : Z) (m : frame) :
  commands m = [] -> run fuel z m = verdict m.
Proof.
  intros H. destruct fuel; simpl; rewrite H; reflexivity.
Qed.

Lemma eval_loop_cons (fuel : nat) (z : Z) (m : frame) (c : command)
  (rest : list command) :
  commands m = c :: rest ->
  run (S fuel) z m =
  match step z c (with_commands rest m) with
  | Continue m' => run fuel z m'
  | Stop r m' => (r, m')
  end.
Proof.
  intros H. simpl. rewrite H. reflexivity.
Qed.

Lemma verdict_empty_stack (m : frame) :
  stack m = [] -> verdict m = (Ok false, m).
Proof.
  intros H. unfold verdict. rewrite H. reflexivity.
Qed.

Lemma verdict_top (m : frame) (st : list bytes) (top : bytes) :
  stack m = st ++ [top] ->
  verdict m = (Ok (negb (is_empty top)), with_stack st m).
Proof.
  intros H. unfold verdict. rewrite H, pop_app.
  now destruct (is_empty top).
Qed.

(** *** Data pushes without a p2sh look-ahead *)

Lemma exec_push_no_p2sh (d : bytes) (m : frame) :
  p2sh_lookahead (commands m) = None ->
  push d m = p2wsh (p2wpkh_rule (with_stack (stack m ++ [d]) m)).
Proof.
  intros H. unfold exec_push, p2sh_rule.
  cbn [commands with_stack]. rewrite H. reflexivity.
Qed.

Lemma p2wpkh_rule_fires (m : frame) (d : bytes) :
  stack m = [[]; d] -> len d = 20 ->
  p2wpkh_rule m =
  Frame (self_commands m) (witness m)
    (commands m ++ map DataPush (witness m) ++ p2pkh_script d)
    [] (altstack m).
Proof.
  intros Hs Hl. unfold p2wpkh_rule. rewrite Hs. cbn [is_empty andb].
  rewrite Hl. cbn. now rewrite <- app_assoc.
Qed.

Lemma p2wpkh_rule_skips_32 (m : frame) (d : bytes) :
  stack m = [[]; d] -> len d = 32 -> p2wpkh_rule m = m.
Proof.
  intros Hs Hl. unfold p2wpkh_rule. rewrite Hs. cbn [is_empty andb].
  rewrite Hl. reflexivity.
Qed.

Lemma p2wsh_rule_idle (m : frame) :
  length (stack m) <> 2%nat -> p2wsh m = Continue m.
Proof.
  intros H. unfold p2wsh_rule.
  destruct (stack m) as [|a [|b [|c r]]]; try reflexivity.
  now contradiction H.
Qed.

Lemma p2wpkh_rule_idle (m : frame) :
  length (stack m) <> 2%nat -> p2wpkh_rule m = m.
Proof.
  intros H. unfold p2wpkh_rule.
  destruct (stack m) as [|a [|b [|c r]]]; try reflexivity.
  now contradiction H.
Qed.

Lemma p2wsh_rule_empty_witness (m : frame) (d : bytes) :
  stack m = [[]; d] -> len d = 32 -> witness m = [] ->
  p2wsh m =
  Stop (Raise IndexError)
    (Frame (self_commands m) [] (commands m) [] (altstack m)).
Proof.
  intros Hs Hl Hw. unfold p2wsh_rule. rewrite Hs.
  cbn [is_empty andb]. rewrite Hl. cbn [Z.eqb Pos.eqb].
  frame_simpl. rewrite Hw, pop_nil. cbn [map removelast].
  now rewrite app_nil_r.
Qed.

Lemma p2wsh_rule_mismatch (m : frame) (d : bytes) (init : list bytes)
  (witness_script : bytes) :
  stack m = [[]; d] -> len d = 32 ->
  witness m = init ++ [witness_script] ->
  d <> sha256 witness_script ->
  p2wsh m =
  Stop (Ok false)
    (Frame (self_commands m) (witness m)
       (commands m ++ map DataPush init) [] (altstack m)).
Proof.
  intros Hs Hl Hw Hd. unfold p2wsh_rule. rewrite Hs.
  cbn [is_empty andb]. rewrite Hl. cbn [Z.eqb Pos.eqb].
  frame_simpl.
  rewrite Hw, pop_app, removelast_snoc, bytes_eqb_neq by assumption.
  reflexivity.
Qed.

Lemma p2wsh_rule_match (m : frame) (init : list bytes)
  (witness_script v : bytes) :
  stack m = [[]; sha256 witness_script] ->
  len (sha256 witness_script) = 32 ->
  witness m = init ++ [witness_script] ->
  encode_varint (len witness_script) = Ok v ->
  p2wsh m =
  try (parse (v ++ witness_script))
    (Frame (self_commands m) (witness m)
       (commands m ++ map DataPush init) [] (altstack m))
    (fun parsed =>
       Continue
         (Frame (self_commands m) (witness m)
            (commands m ++ map DataPush init ++ parsed) []
            (altstack m))).
Proof.
  intros Hs Hl Hw Hv. unfold p2wsh_rule. rewrite Hs.
  cbn [is_empty andb]. rewrite Hl. cbn [Z.eqb Pos.eqb].
  frame_simpl.
  rewrite Hw, pop_app, removelast_snoc, bytes_eqb_refl, Hv.
  cbn [negb]. unfold try.
  destruct (parse (v ++ witness_script)); try reflexivity.
  frame_simpl. now rewrite <- app_assoc.
Qed.

(** *** The p2sh rule *)

Lemma p2sh_lookahead_script (h160 : bytes) :
  len h160 = 20 -> p2sh_lookahead (p2sh_script h160) = Some h160.
Proof.
  intros H. unfold p2sh_lookahead, p2sh_script. rewrite H. reflexivity.
Qed.

Lemma exec_push_p2sh_mismatch (d h160 redeem_script : bytes) (m : frame) :
  commands m = p2sh_script h160 -> len h160 = 20 ->
  encode_varstr d = Ok redeem_script ->
  h160 <> hash160 d ->
  push d m =
  Stop (Ok false)
    (Frame (self_commands m) (witness m) [] (stack m) (altstack m)).
Proof.
  intros Hc Hl Hr Hne. unfold exec_push, p2sh_rule. frame_simpl.
  rewrite Hc, (p2sh_lookahead_script _ Hl), Hr. unfold try.
  unfold op_hash160. rewrite pop_app. cbv beta iota zeta. frame_simpl.
  unfold op_equal. rewrite !pop_app. cbv beta iota zeta.
  rewrite (bytes_eqb_neq _ _ Hne). cbv beta iota zeta. frame_simpl.
  unfold op_verify. rewrite pop_app. reflexivity.
Qed.

Lemma exec_push_p2sh_match (d redeem_script : bytes) (m : frame) :
  commands m = p2sh_script (hash160 d) -> len (hash160 d) = 20 ->
  encode_varstr d = Ok redeem_script ->
  push d m =
  try (parse redeem_script)
    (Frame (self_commands m) (witness m) [] (stack m) (altstack m))
    (fun parsed =>
       p2wsh
         (p2wpkh_rule
            (Frame (self_commands m) (witness m) parsed (stack m)
               (altstack m)))).
Proof.
  intros Hc Hl Hr. unfold exec_push, p2sh_rule. frame_simpl.
  rewrite Hc, (p2sh_lookahead_script _ Hl), Hr. unfold try.
  unfold op_hash160. rewrite pop_app. cbv beta iota zeta. frame_simpl.
  unfold op_equal. rewrite !pop_app. cbv beta iota zeta.
  rewrite bytes_eqb_refl. cbv beta iota zeta. frame_simpl.
  unfold op_verify. rewrite pop_app. cbv beta iota zeta.
  cbn [is_empty negb]. frame_simpl.
  destruct (parse redeem_script); reflexivity.
Qed.

(** *** The lists of the caller *)

Lemma same_inputs_refl (m : frame) : same_inputs m m.
Proof. split; reflexivity. Qed.

Lemma same_inputs_trans (a b c : frame) :
  same_inputs a b -> same_inputs b c -> same_inputs a c.
Proof. intros [H1 H2] [H3 H4]. split; congruence. Qed.

Ltac break_match :=
  match goal with
  | |- context [match ?x with _ => _ end] => destruct x eqn:?
  end.

Ltac same_inputs_case :=
  repeat break_match; cbn [flow_frame]; frame_simpl;
  try (split; reflexivity).

Lemma invoke_same_inputs (z n : Z) (m m' : frame) (ok : bool) :
  call z n m = Ok (ok, m') -> same_inputs m m'.
Proof.
  unfold invoke. intros H.
  repeat match type of H with
         | context [match ?x with _ => _ end] => destruct x eqn:?
         end; try discriminate; inversion H; subst;
    split; reflexivity.
Qed.

Lemma exec_opcode_same_inputs (z n : Z) (m : frame) :
  same_inputs m (flow_frame (opcode z n m)).
Proof.
  unfold exec_opcode, try.
  destruct (call z n m) as [[ok m']| |] eqn:E;
    try apply same_inputs_refl.
  apply invoke_same_inputs in E. now destruct ok.
Qed.

Lemma p2sh_rule_same_inputs (d : bytes) (m : frame) :
  same_inputs m (flow_frame (p2sh d m)).
Proof.
  unfold p2sh_rule, try, op_hash160, op_equal, op_verify.
  same_inputs_case.
Qed.

Lemma p2wpkh_rule_same_inputs (m : frame) : same_inputs m (p2wpkh_rule m).
Proof.
  unfold p2wpkh_rule. repeat break_match; frame_simpl;
    split; reflexivity.
Qed.

Lemma p2wsh_rule_same_inputs (m : frame) :
  same_inputs m (flow_frame (p2wsh m)).
Proof.
  unfold p2wsh_rule, try. same_inputs_case.
Qed.

Lemma eval_step_same_inputs (z : Z) (c : command) (m : frame) :
  same_inputs m (flow_frame (step z c m)).
Proof.
  destruct c as [n|d]; cbn [eval_step].
  - apply exec_opcode_same_inputs.
  - unfold exec_push.
    pose proof (p2sh_rule_same_inputs d (with_stack (stack m ++ [d]) m))
      as H.
    destruct (p2sh d (with_stack (stack m ++ [d]) m)) as [m1|r m1];
      cbn [flow_frame] in *.
    + eapply same_inputs_trans; [exact H|].
      eapply same_inputs_trans; [apply p2wpkh_rule_same_inputs|].
      apply p2wsh_rule_same_inputs.
    + exact H.
Qed.

Lemma verdict_same_inputs (m : frame) : same_inputs m (snd (verdict m)).
Proof.
  unfold verdict. repeat break_match; cbn [snd]; frame_simpl;
    split; reflexivity.
Qed.

Lemma eval_loop_same_inputs (fuel : nat) (z : Z) :
  forall m, same_inputs m (snd (run fuel z m)).
Proof.
  induction fuel as [|fuel IH]; intros m;
    destruct (commands m) as [|c rest] eqn:Hc.
  - rewrite eval_loop_nil by assumption. apply verdict_same_inputs.
  - simpl. rewrite Hc. apply same_inputs_refl.
  - rewrite eval_loop_nil by assumption. apply verdict_same_inputs.
  - rewrite (eval_loop_cons _ _ _ _ _ Hc).
    pose proof (eval_step_same_inputs z c (with_commands rest m)) as H.
    destruct (step z c (with_commands rest m)) as [m1|r m1];
      cbn [flow_frame snd] in *.
    + eapply same_inputs_trans; [exact H|]. apply IH.
    + exact H.
Qed.

(** ** The claims on evaluation *)

(** C2: once the command queue is exhausted, the evaluation returns false
    when the stack is empty, false when the top element of the stack is
    the empty byte string, and true for every other top element, the
    single zero byte included. *)
Theorem final_verdict (fuel : nat) (z : Z) (m : frame) :
  commands m = [] ->
  (stack m = [] -> fst (run fuel z m) = Ok false)
  /\ (forall st, stack m = st ++ [[]] -> fst (run fuel z m) = Ok false)
  /\ (forall st top, stack m = st ++ [top] -> top <> [] ->
                     fst (run fuel z m) = Ok true)
  /\ (forall st, stack m = st ++ [[x00]] -> fst (run fuel z m) = Ok true).
Proof.
  intros Hc. rewrite (eval_loop_nil _ _ _ Hc). repeat split.
  - intros Hs. now rewrite verdict_empty_stack.
  - intros st Hs. now rewrite (verdict_top _ _ _ Hs).
  - intros st top Hs Hne. rewrite (verdict_top _ _ _ Hs).
    destruct top; [contradiction|reflexivity].
  - intros st Hs. now rewrite (verdict_top _ _ _ Hs).
Qed.

(** C9: evaluation leaves its inputs as they were: when [evaluate] returns
    or raises, the list [self.commands] of the script and the witness of
    the caller hold what they held before the call; the commands consumed
    and added during the run are those of the copy made on entry. *)
Theorem evaluate_preserves_inputs (fuel : nat) (self : Script) (z : Z)
  (witness0 : list bytes) :
  self_commands
    (snd (evaluate_frame hash160 sha256 OP_CODE_FUNCTIONS fuel self z
            witness0)) = self
  /\ witness
       (snd (evaluate_frame hash160 sha256 OP_CODE_FUNCTIONS fuel self z
               witness0)) = witness0.
Proof.
  unfold evaluate_frame.
  exact (eval_loop_same_inputs fuel z (enter self witness0)).
Qed.

(** C10: when the second witness program rule fires (the data push leaves
    exactly the empty byte string below a 32-byte element on the stack)
    and the witness is empty, [evaluate] returns no boolean: it raises
    [IndexError] on [witness[-1]], before any hash is compared. *)
Theorem p2wsh_requires_witness (fuel : nat) (z : Z) (m : frame) (d : bytes)
  (rest : list command) :
  commands m = DataPush d :: rest ->
  stack m = [[]] ->
  len d = 32 ->
  p2sh_lookahead rest = None ->
  witness m = [] ->
  fst (run (S fuel) z m) = Raise IndexError
  /\ (forall n b, fst (run n z m) <> Ok b).
Proof.
  intros Hc Hs Hl Hp Hw.
  assert (H : fst (run (S fuel) z m) = Raise IndexError).
  { rewrite (eval_loop_cons _ _ _ _ _ Hc). cbn [eval_step].
    rewrite exec_push_no_p2sh by exact Hp. frame_simpl. rewrite Hs.
    cbn [app].
    rewrite (p2wpkh_rule_skips_32 _ d) by (try reflexivity; exact Hl).
    rewrite (p2wsh_rule_empty_witness _ d)
      by (try reflexivity; assumption).
    reflexivity. }
  split; [exact H|].
  intros [|n] b.
  - simpl. rewrite Hc. discriminate.
  - rewrite (eval_loop_cons _ _ _ _ _ Hc). cbn [eval_step].
    rewrite exec_push_no_p2sh by exact Hp. frame_simpl. rewrite Hs.
    cbn [app].
    rewrite (p2wpkh_rule_skips_32 _ d) by (try reflexivity; exact Hl).
    rewrite (p2wsh_rule_empty_witness _ d)
      by (try reflexivity; assumption).
    discriminate.
Qed.

(** C3: when the three commands left after a data push are the hash-160
    opcode, a 20-byte push and the equality opcode, the pushed bytes are
    hashed and compared with the embedded value: the evaluation returns
    false when the embedded value differs from the 160-bit hash of the
    pushed bytes, and on a match the pushed bytes are decoded as a script
    whose commands form the queue that is executed next (after the witness
    program rules had their look at the stack, which do nothing unless it
    holds exactly two elements). *)
Theorem script_hash_expansion (fuel : nat) (z : Z) (m : frame)
  (d h160 redeem_script : bytes) :
  commands m = DataPush d :: p2sh_script h160 ->
  len h160 = 20 ->
  encode_varstr d = Ok redeem_script ->
  (h160 <> hash160 d -> fst (run (S fuel) z m) = Ok false)
  /\ (h160 = hash160 d ->
      forall parsed, parse redeem_script = Ok parsed ->
        run (S fuel) z m =
        match p2wsh (p2wpkh_rule (with_commands parsed m)) with
        | Continue m' => run fuel z m'
        | Stop r m' => (r, m')
        end
        /\ (length (stack m) <> 2%nat ->
            run (S fuel) z m = run fuel z (with_commands parsed m))).
Proof.
  intros Hc Hl Hr. split.
  - intros Hne. rewrite (eval_loop_cons _ _ _ _ _ Hc). cbn [eval_step].
    rewrite (exec_push_p2sh_mismatch d h160 redeem_script)
      by (try reflexivity; assumption).
    reflexivity.
  - intros -> parsed Hp.
    assert (E : run (S fuel) z m =
                match p2wsh (p2wpkh_rule (with_commands parsed m)) with
                | Continue m' => run fuel z m'
                | Stop r m' => (r, m')
                end).
    { rewrite (eval_loop_cons _ _ _ _ _ Hc). cbn [eval_step].
      rewrite (exec_push_p2sh_match d redeem_script)
        by (try reflexivity; assumption).
      rewrite Hp. unfold try. frame_simpl. reflexivity. }
    split; [exact E|].
    intros Hs. rewrite E.
    rewrite p2wpkh_rule_idle by exact Hs.
    rewrite p2wsh_rule_idle by exact Hs. reflexivity.
Qed.

(** C4, as the code has it: when a data push leaves exactly two elements
    on the stack, the empty byte string below a 20-byte or a 32-byte
    element, both are popped and the replacement commands are appended at
    the end of the command queue, behind the commands already queued: the
    whole witness followed by the key-hash template for a 20-byte element;
    for a 32-byte element that is the 256-bit hash of the last witness
    element, the witness elements but the last followed by the commands
    decoded from that last element. *)
Theorem witness_program_expansion (z : Z) (m : frame) (d : bytes) :
  stack m = [[]] ->
  p2sh_lookahead (commands m) = None ->
  (len d = 20 ->
   step z (DataPush d) m =
   Continue
     (Frame (self_commands m) (witness m)
        (commands m ++ map DataPush (witness m) ++ p2pkh_script d)
        [] (altstack m)))
  /\ (len d = 32 ->
      forall init witness_script v parsed,
        witness m = init ++ [witness_script] ->
        d = sha256 witness_script ->
        encode_varint (len witness_script) = Ok v ->
        parse (v ++ witness_script) = Ok parsed ->
        step z (DataPush d) m =
        Continue
          (Frame (self_commands m) (witness m)
             (commands m ++ map DataPush init ++ parsed)
             [] (altstack m))).
Proof.
  intros Hs Hp. cbn [eval_step]. rewrite exec_push_no_p2sh by exact Hp.
  split.
  - intros Hl.
    rewrite (p2wpkh_rule_fires _ d)
      by (frame_simpl; rewrite ?Hs; try reflexivity; exact Hl).
    rewrite p2wsh_rule_idle by (cbn; discriminate).
    frame_simpl. reflexivity.
  - intros Hl init ws v parsed Hw -> Hv Hparse.
    rewrite (p2wpkh_rule_skips_32 _ (sha256 ws))
      by (frame_simpl; rewrite ?Hs; try reflexivity; exact Hl).
    rewrite (p2wsh_rule_match _ init ws v)
      by (frame_simpl; rewrite ?Hs; try reflexivity; assumption).
    rewrite Hparse. unfold try. frame_simpl. reflexivity.
Qed.

(** C5, as the code has it: the evaluation returns the single result
    false when the invocation of an opcode returns failure, when the hash
    embedded in a script-hash template differs from the 160-bit hash of
    the pushed bytes, and when the 256-bit hash of the last witness
    element differs from the 32-byte witness program; a nested script that
    does not decode, in either expansion, is not turned into false: the
    [SyntaxError] of [parse] leaves [evaluate] and reaches the caller. *)
Theorem evaluation_failure_semantics (fuel : nat) (z : Z) (m : frame) :
  (forall n rest m',
      commands m = Opcode n :: rest ->
      call z n (with_commands rest m) = Ok (false, m') ->
      run (S fuel) z m = (Ok false, m'))
  /\ (forall d h160 redeem_script,
         commands m = DataPush d :: p2sh_script h160 ->
         len h160 = 20 ->
         encode_varstr d = Ok redeem_script ->
         h160 <> hash160 d ->
         fst (run (S fuel) z m) = Ok false)
  /\ (forall d rest init witness_script,
         commands m = DataPush d :: rest ->
         p2sh_lookahead rest = None ->
         stack m = [[]] ->
         len d = 32 ->
         witness m = init ++ [witness_script] ->
         d <> sha256 witness_script ->
         fst (run (S fuel) z m) = Ok false)
  /\ (forall d redeem_script e,
         commands m = DataPush d :: p2sh_script (hash160 d) ->
         len (hash160 d) = 20 ->
         encode_varstr d = Ok redeem_script ->
         parse redeem_script = Raise e ->
         e = SyntaxError /\ fst (run (S fuel) z m) = Raise SyntaxError)
  /\ (forall rest init witness_script v e,
         commands m = DataPush (sha256 witness_script) :: rest ->
         p2sh_lookahead rest = None ->
         stack m = [[]] ->
         len (sha256 witness_script) = 32 ->
         witness m = init ++ [witness_script] ->
         encode_varint (len witness_script) = Ok v ->
         parse (v ++ witness_script) = Raise e ->
         e = SyntaxError /\ fst (run (S fuel) z m) = Raise SyntaxError).
Proof.
  split; [|split; [|split; [|split]]].
  - intros n rest m' Hc Hi. rewrite (eval_loop_cons _ _ _ _ _ Hc).
    cbn [eval_step]. unfold exec_opcode. rewrite Hi. reflexivity.
  - intros d h160 redeem_script Hc Hl Hr Hne.
    rewrite (eval_loop_cons _ _ _ _ _ Hc). cbn [eval_step].
    rewrite (exec_push_p2sh_mismatch d h160 redeem_script)
      by (try reflexivity; assumption).
    reflexivity.
  - intros d rest init ws Hc Hp Hs Hl Hw Hne.
    rewrite (eval_loop_cons _ _ _ _ _ Hc). cbn [eval_step].
    rewrite exec_push_no_p2sh by exact Hp. frame_simpl. rewrite Hs.
    cbn [app].
    rewrite (p2wpkh_rule_skips_32 _ d) by (try reflexivity; exact Hl).
    rewrite (p2wsh_rule_mismatch _ d init ws)
      by (try reflexivity; assumption).
    reflexivity.
  - intros d redeem_script e Hc Hl Hr Hp.
    assert (He : e = SyntaxError).
    { unfold encode_varstr in Hr.
      destruct (encode_varint (len d)) as [v| |] eqn:Ev; try discriminate.
      cbn [bind] in Hr. assert (E : redeem_script = v ++ d) by congruence.
      subst redeem_script.
      destruct (parse_framed d v Ev) as [[cmds H]|H]; congruence. }
    subst e. split; [reflexivity|].
    rewrite (eval_loop_cons _ _ _ _ _ Hc). cbn [eval_step].
    rewrite (exec_push_p2sh_match d redeem_script)
      by (try reflexivity; assumption).
    rewrite Hp. reflexivity.
  - intros rest init ws v e Hc Hp Hs Hl Hw Hv Hparse.
    assert (He : e = SyntaxError)
      by (destruct (parse_framed ws v Hv) as [[cmds H]|H]; congruence).
    subst e. split; [reflexivity|].
    rewrite (eval_loop_cons _ _ _ _ _ Hc). cbn [eval_step].
    rewrite exec_push_no_p2sh by exact Hp. frame_simpl. rewrite Hs.
    cbn [app].
    rewrite (p2wpkh_rule_skips_32 _ (sha256 ws))
      by (try reflexivity; exact Hl).
    rewrite (p2wsh_rule_match _ init ws v)
      by (try reflexivity; assumption).
    rewrite Hparse. reflexivity.
Qed.

End EvaluatorProperties.

(** ** Closed instances *)

(** The verdict on whole scripts: the empty script evaluates to false, the
    script that pushes a single zero byte to true. *)
Lemma evaluate_empty_script (hash160 sha256 : bytes -> bytes)
  (OP_CODE_FUNCTIONS : Z -> option operation) (fuel : nat) (z : Z)
  (witness0 : list bytes) :
  evaluate hash160 sha256 OP_CODE_FUNCTIONS fuel [] z witness0 = Ok false.
Proof.
  destruct fuel; reflexivity.
Qed.

Lemma evaluate_zero_byte_push (hash160 sha256 : bytes -> bytes)
  (OP_CODE_FUNCTIONS : Z -> option operation) (fuel : nat) (z : Z)
  (witness0 : list bytes) :
  evaluate hash160 sha256 OP_CODE_FUNCTIONS (S fuel) [DataPush [x00]] z
    witness0 = Ok true.
Proof.
  destruct fuel; reflexivity.
Qed.

Lemma final_verdict_witness :
  fst (eval_loop (const_digest 20) (const_digest 32) no_opcodes 0 0
         (Frame [] [] [] [[x01]; [x00]] [])) = Ok true.
Proof.
  apply (proj2 (proj2 (proj2
           (final_verdict (const_digest 20) (const_digest 32) no_opcodes
              0 0 (Frame [] [] [] [[x01]; [x00]] []) eq_refl)))
           [[x01]]).
  reflexivity.
Defined.

Lemma script_hash_expansion_witness :
  eval_loop (const_digest 20) (const_digest 32) no_opcodes 1 0
    (Frame [] [] (DataPush [x01; x05] :: p2sh_script (zeros 20)) [] [])
  = eval_loop (const_digest 20) (const_digest 32) no_opcodes 0 0
      (Frame [] [] [DataPush [x05]] [] []).
Proof.
  apply (proj2
           (script_hash_expansion (const_digest 20) (const_digest 32)
              no_opcodes 0 0
              (Frame [] [] (DataPush [x01; x05] :: p2sh_script (zeros 20))
                 [] [])
              [x01; x05] (zeros 20) [x02; x01; x05]
              eq_refl eq_refl eq_refl)
           eq_refl [DataPush [x05]] eq_refl).
  cbn. discriminate.
Defined.

Lemma witness_program_expansion_witness :
  eval_step (const_digest 20) (const_digest 32) no_opcodes 0
    (DataPush (zeros 20)) (Frame [] [[x07]] [Opcode 0x76] [[]] [])
  = Continue
      (Frame [] [[x07]]
         ([Opcode 0x76] ++ [DataPush [x07]] ++ p2pkh_script (zeros 20))
         [] [])
  /\ eval_step (const_digest 20) (const_digest 32) no_opcodes 0
       (DataPush (zeros 32))
       (Frame [] [[x07]; [x01; x05]] [Opcode 0x76] [[]] [])
     = Continue
         (Frame [] [[x07]; [x01; x05]]
            ([Opcode 0x76] ++ [DataPush [x07]] ++ [DataPush [x05]])
            [] []).
Proof.
  split.
  - apply (proj1
             (witness_program_expansion (const_digest 20) (const_digest 32)
                no_opcodes 0 (Frame [] [[x07]] [Opcode 0x76] [[]] [])
                (zeros 20) eq_refl eq_refl)).
    reflexivity.
  - apply (proj2
             (witness_program_expansion (const_digest 20) (const_digest 32)
                no_opcodes 0
                (Frame [] [[x07]; [x01; x05]] [Opcode 0x76] [[]] [])
                (zeros 32) eq_refl eq_refl)
             eq_refl [[x07]] [x01; x05] [x02] [DataPush [x05]]);
      reflexivity.
Defined.

(** With one command queued behind the witness program, the replacement
    commands are placed behind it, not in front of it. *)
Lemma witness_commands_run_last :
  eval_step (const_digest 20) (const_digest 32) no_opcodes 0
    (DataPush (zeros 20)) (Frame [] [[x07]] [Opcode 0x76] [[]] [])
  = Continue
      (Frame [] [[x07]]
         ([Opcode 0x76] ++ [DataPush [x07]] ++ p2pkh_script (zeros 20))
         [] [])
  /\ eval_step (const_digest 20) (const_digest 32) no_opcodes 0
       (DataPush (zeros 20)) (Frame [] [[x07]] [Opcode 0x76] [[]] [])
     <> Continue
          (Frame [] [[x07]]
             ([DataPush [x07]] ++ p2pkh_script (zeros 20) ++ [Opcode 0x76])
             [] []).
Proof.
  split; [reflexivity|]. vm_compute. discriminate.
Qed.

Lemma evaluation_failure_semantics_witness :
  eval_loop (const_digest 20) (const_digest 32)
    (fun _ => Some (StackOp (fun st => (false, st)))) 1 0
    (Frame [] [] [Opcode 0x76] [[x01]] [])
  = (Ok false, Frame [] [] [] [[x01]] [])
  /\ fst (eval_loop (const_digest 20) (const_digest 32) no_opcodes 1 0
            (Frame [] [] (DataPush [x05] :: p2sh_script (repeat x01 20))
               [] [])) = Ok false
  /\ fst (eval_loop (const_digest 20) (const_digest 32) no_opcodes 1 0
            (Frame [] [[x01; x05]] [DataPush (repeat x01 32)] [[]] []))
     = Ok false
  /\ fst (eval_loop (const_digest 20) (const_digest 32) no_opcodes 1 0
            (Frame [] [] (DataPush [x05] :: p2sh_script (zeros 20)) [] []))
     = Raise SyntaxError
  /\ fst (eval_loop (const_digest 20) (const_digest 32) no_opcodes 1 0
            (Frame [] [[x05]] [DataPush (zeros 32)] [[]] []))
     = Raise SyntaxError.
Proof.
  split; [|split; [|split; [|split]]].
  - apply (proj1
             (evaluation_failure_semantics (const_digest 20)
                (const_digest 32)
                (fun _ => Some (StackOp (fun st => (false, st)))) 0 0
                (Frame [] [] [Opcode 0x76] [[x01]] []))
             0x76 []); reflexivity.
  - apply (proj1 (proj2
             (evaluation_failure_semantics (const_digest 20)
                (const_digest 32) no_opcodes 0 0
                (Frame [] [] (DataPush [x05] :: p2sh_script (repeat x01 20))
                   [] [])))
             [x05] (repeat x01 20) [x01; x05]);
      try reflexivity.
    vm_compute. discriminate.
  - apply (proj1 (proj2 (proj2
             (evaluation_failure_semantics (const_digest 20)
                (const_digest 32) no_opcodes 0 0
                (Frame [] [[x01; x05]] [DataPush (repeat x01 32)] [[]]
                   []))))
             (repeat x01 32) [] [] [x01; x05]);
      try reflexivity.
    vm_compute. discriminate.
  - apply (proj1 (proj2 (proj2 (proj2
             (evaluation_failure_semantics (const_digest 20)
                (const_digest 32) no_opcodes 0 0
                (Frame [] [] (DataPush [x05] :: p2sh_script (zeros 20))
                   [] [])))))
             [x05] [x01; x05] SyntaxError); reflexivity.
  - apply (proj2 (proj2 (proj2 (proj2
             (evaluation_failure_semantics (const_digest 20)
                (const_digest 32) no_opcodes 0 0
                (Frame [] [[x05]] [DataPush (zeros 32)] [[]] [])))))
             [] [] [x05] [x01] SyntaxError); reflexivity.
Defined.

(** Two runs of [evaluate] that end in an exception, not in a boolean:
    a 32-byte witness program met with an empty witness ([IndexError] for
    every digest and every opcode table, since none is consulted before),
    and a witness script that does not decode ([SyntaxError]; the digest
    standing in for the 256-bit hash maps the witness script to the
    program that is pushed, as the real one does for the real program). *)
Lemma evaluate_raises_to_caller :
  evaluate (const_digest 20) (const_digest 32) no_opcodes 2
    [DataPush []; DataPush (zeros 32)] 0 [] = Raise IndexError
  /\ (forall hash160 sha256 OP_CODE_FUNCTIONS fuel b,
         evaluate hash160 sha256 OP_CODE_FUNCTIONS fuel
           [DataPush []; DataPush (zeros 32)] 0 [] <> Ok b)
  /\ evaluate (const_digest 20) (const_digest 32) no_opcodes 2
       [DataPush []; DataPush (zeros 32)] 0 [[x05]] = Raise SyntaxError
  /\ (forall fuel b,
         evaluate (const_digest 20) (const_digest 32) no_opcodes fuel
           [DataPush []; DataPush (zeros 32)] 0 [[x05]] <> Ok b).
Proof.
  split; [reflexivity|]. split; [|split; [reflexivity|]].
  - intros h s t [|[|fuel]] b; vm_compute; discriminate.
  - intros [|[|fuel]] b; vm_compute; discriminate.
Qed.

Lemma p2wsh_requires_witness_witness :
  fst (eval_loop (const_digest 20) (const_digest 32) no_opcodes 1 0
         (Frame [DataPush []; DataPush (zeros 32)] []
            [DataPush (zeros 32)] [[]] [])) = Raise IndexError
  /\ (forall n b,
         fst (eval_loop (const_digest 20) (const_digest 32) no_opcodes n 0
                (Frame [DataPush []; DataPush (zeros 32)] []
                   [DataPush (zeros 32)] [[]] [])) <> Ok b).
Proof.
  apply (p2wsh_requires_witness (const_digest 20) (const_digest 32)
           no_opcodes 0 0
           (Frame [DataPush []; DataPush (zeros 32)] []
              [DataPush (zeros 32)] [[]] [])
           (zeros 32) []); reflexivity.
Defined.

(** * Further properties of the code *)

(** ** Lock patterns and their builders *)

Lemma is_op_true (c : command) (n : Z) : is_op c n = true <-> c = Opcode n.
Proof.
  destruct c as [m|d]; cbn [is_op]; split; intros H; try discriminate.
  - apply Z.eqb_eq in H. now subst.
  - injection H as ->. apply Z.eqb_refl.
Qed.

Lemma is_push_of_len_true (c : command) (n : Z) :
  is_push_of_len c n = true <-> exists d, c = DataPush d /\ len d = n.
Proof.
  destruct c as [m|d]; cbn [is_push_of_len]; split; intros H;
    try discriminate.
  - destruct H as (d & H & _). discriminate.
  - apply Z.eqb_eq in H. eauto.
  - destruct H as (d' & H & Hl). injection H as ->. now apply Z.eqb_eq.
Qed.

Lemma is_p2pkh_iff (self : Script) :
  is_p2pkh_script_pubkey self = true
  <-> exists h, len h = 20 /\ self = p2pkh_script h.
Proof.
  split.
  - destruct self as [|c0 [|c1 [|c2 [|c3 [|c4 [|c5 r]]]]]];
      cbn [is_p2pkh_script_pubkey]; try discriminate.
    rewrite !andb_true_iff, !is_op_true, is_push_of_len_true.
    intros [[[[-> ->] (h & -> & Hl)] ->] ->]. now exists h.
  - intros (h & Hl & ->). cbn. now rewrite Hl.
Qed.

Lemma is_p2sh_iff (self : Script) :
  is_p2sh_script_pubkey self = true
  <-> exists h, len h = 20 /\ self = p2sh_script h.
Proof.
  split.
  - destruct self as [|c0 [|c1 [|c2 [|c3 r]]]];
      cbn [is_p2sh_script_pubkey]; try discriminate.
    rewrite !andb_true_iff, !is_op_true, is_push_of_len_true.
    intros [[-> (h & -> & Hl)] ->]. now exists h.
  - intros (h & Hl & ->). cbn. now rewrite Hl.
Qed.

Lemma is_p2wpkh_iff (self : Script) :
  is_p2wpkh_script_pubkey self = true
  <-> exists h, len h = 20 /\ self = p2wpkh_script h.
Proof.
  split.
  - destruct self as [|c0 [|c1 [|c2 r]]];
      cbn [is_p2wpkh_script_pubkey]; try discriminate.
    rewrite !andb_true_iff, !is_op_true, is_push_of_len_true.
    intros [-> (h & -> & Hl)]. now exists h.
  - intros (h & Hl & ->). cbn. now rewrite Hl.
Qed.

Lemma is_p2wsh_iff (self : Script) :
  is_p2wsh_script_pubkey self = true
  <-> exists h, len h = 32 /\ self = p2wsh_script h.
Proof.
  split.
  - destruct self as [|c0 [|c1 [|c2 r]]];
      cbn [is_p2wsh_script_pubkey]; try discriminate.
    rewrite !andb_true_iff, !is_op_true, is_push_of_len_true.
    intros [-> (h & -> & Hl)]. now exists h.
  - intros (h & Hl & ->). cbn. now rewrite Hl.
Qed.

(** X1: each pattern predicate recognizes exactly the scripts its builder
    makes from a hash of the right length: [is_p2pkh_script_pubkey] the
    scripts [p2pkh_script(h)] with a 20-byte [h], [is_p2sh_script_pubkey]
    the scripts [p2sh_script(h)] with a 20-byte [h],
    [is_p2wpkh_script_pubkey] the scripts [p2wpkh_script(h)] with a
    20-byte [h], and [is_p2wsh_script_pubkey] the scripts
    [p2wsh_script(h)] with a 32-byte [h]. *)
Theorem lock_patterns_are_builder_images (self : Script) :
  (is_p2pkh_script_pubkey self = true
   <-> exists h, len h = 20 /\ self = p2pkh_script h)
  /\ (is_p2sh_script_pubkey self = true
      <-> exists h, len h = 20 /\ self = p2sh_script h)
  /\ (is_p2wpkh_script_pubkey self = true
      <-> exists h, len h = 20 /\ self = p2wpkh_script h)
  /\ (is_p2wsh_script_pubkey self = true
      <-> exists h, len h = 32 /\ self = p2wsh_script h).
Proof.
  repeat split;
    first [ apply is_p2pkh_iff | apply is_p2sh_iff
          | apply is_p2wpkh_iff | apply is_p2wsh_iff ].
Qed.

(** ** The embedded hash and the legacy addresses *)

Lemma Script_hash160_p2pkh (h : bytes) :
  len h = 20 -> Script_hash160 (p2pkh_script h) = Ok (Some (DataPush h)).
Proof.
  intros Hl. unfold Script_hash160.
  rewrite (proj2 (is_p2pkh_iff _)) by eauto. reflexivity.
Qed.

Lemma Script_hash160_p2sh (h : bytes) :
  len h = 20 -> Script_hash160 (p2sh_script h) = Ok (Some (DataPush h)).
Proof.
  intros Hl. unfold Script_hash160.
  rewrite (proj2 (is_p2sh_iff _)) by eauto. reflexivity.
Qed.

Lemma Script_hash160_cases (self : Script) :
  (exists h, len h = 20
             /\ (self = p2pkh_script h \/ self = p2sh_script h)
             /\ Script_hash160 self = Ok (Some (DataPush h)))
  \/ (is_p2pkh_script_pubkey self = false
      /\ is_p2sh_script_pubkey self = false
      /\ Script_hash160 self = Ok None).
Proof.
  destruct (is_p2pkh_script_pubkey self) eqn:E1.
  - apply is_p2pkh_iff in E1 as (h & Hl & ->). left. exists h.
    repeat split; auto. now apply Script_hash160_p2pkh.
  - destruct (is_p2sh_script_pubkey self) eqn:E2.
    + apply is_p2sh_iff in E2 as (h & Hl & ->). left. exists h.
      repeat split; auto. now apply Script_hash160_p2sh.
    + right. repeat split. unfold Script_hash160. now rewrite E1, E2.
Qed.

(** X2: [Script.hash160] never raises; it returns a value other than
    [None] exactly for the key-hash and script-hash lock scripts, and that
    value is the 20-byte hash the script was built from; for every other
    script, the two witness lock scripts included, it returns [None]. *)
Theorem hash160_returns_embedded_hash (self : Script) :
  (forall v, Script_hash160 self = Ok (Some v)
             <-> exists h, v = DataPush h /\ len h = 20
                           /\ (self = p2pkh_script h
                               \/ self = p2sh_script h))
  /\ (Script_hash160 self = Ok None
      <-> is_p2pkh_script_pubkey self = false
          /\ is_p2sh_script_pubkey self = false)
  /\ (forall e, Script_hash160 self <> Raise e)
  /\ (forall h, Script_hash160 (p2wpkh_script h) = Ok None
                /\ Script_hash160 (p2wsh_script h) = Ok None).
Proof.
  split; [|split; [|split]].
  - intros v. split.
    + intros H.
      destruct (Script_hash160_cases self)
        as [(h & Hl & Hs & Hh)|(_ & _ & Hn)]; [|congruence].
      exists h. rewrite Hh in H. injection H as <-. auto.
    + intros (h & -> & Hl & [->| ->]).
      * now apply Script_hash160_p2pkh.
      * now apply Script_hash160_p2sh.
  - split.
    + intros H.
      destruct (Script_hash160_cases self)
        as [(h & Hl & Hs & Hh)|(H1 & H2 & _)]; [congruence|auto].
    + intros [H1 H2]. unfold Script_hash160. now rewrite H1, H2.
  - intros e H.
    destruct (Script_hash160_cases self)
      as [(h & _ & _ & Hh)|(_ & _ & Hn)]; congruence.
  - intros h. split; reflexivity.
Qed.

Section AddressProperties.

Variable hash160 : bytes -> bytes.
Variable sha256 : bytes -> bytes.
Variable text : Type.
Variable h160_to_p2pkh_address : bytes -> bool -> text.
Variable h160_to_p2sh_address : bytes -> bool -> text.
Variable encode_bech32_checksum : bytes -> bool -> text.

Local Abbreviation address_of :=
  (address text h160_to_p2pkh_address h160_to_p2sh_address).
Local Abbreviation p2sh_address_of :=
  (p2sh_address hash160 text h160_to_p2sh_address).
Local Abbreviation p2wsh_script_pubkey_of := (p2wsh_script_pubkey sha256).
Local Abbreviation p2wsh_address_of :=
  (p2wsh_address sha256 text encode_bech32_checksum).
Local Abbreviation p2sh_p2wsh_address_of :=
  (p2sh_p2wsh_address hash160 sha256 text h160_to_p2sh_address).

Lemma address_p2pkh (h : bytes) (testnet : bool) :
  len h = 20 ->
  address_of (p2pkh_script h) testnet = Ok (h160_to_p2pkh_address h testnet).
Proof.
  intros Hl. unfold address.
  rewrite (proj2 (is_p2pkh_iff _)) by eauto.
  now rewrite Script_hash160_p2pkh.
Qed.

Lemma address_p2sh (h : bytes) (testnet : bool) :
  len h = 20 ->
  address_of (p2sh_script h) testnet = Ok (h160_to_p2sh_address h testnet).
Proof.
  intros Hl. unfold address.
  replace (is_p2pkh_script_pubkey (p2sh_script h)) with false
    by reflexivity.
  rewrite (proj2 (is_p2sh_iff _)) by eauto.
  now rewrite Script_hash160_p2sh.
Qed.

(** X3: [Script.address] gives the key-hash address of the embedded hash
    for a key-hash lock script and the script-hash address of the
    embedded hash for a script-hash lock script; for every other script,
    the two witness lock scripts included, it raises [ValueError], and it
    raises nothing else. *)
Theorem address_recognizes_legacy_locks_only (self : Script)
  (testnet : bool) :
  (forall h, len h = 20 ->
             address_of (p2pkh_script h) testnet
             = Ok (h160_to_p2pkh_address h testnet))
  /\ (forall h, len h = 20 ->
                address_of (p2sh_script h) testnet
                = Ok (h160_to_p2sh_address h testnet))
  /\ (address_of self testnet = Raise ValueError
      <-> is_p2pkh_script_pubkey self = false
          /\ is_p2sh_script_pubkey self = false)
  /\ (forall e, address_of self testnet = Raise e -> e = ValueError)
  /\ address_of self testnet <> OutOfFuel
  /\ (forall h, address_of (p2wpkh_script h) testnet = Raise ValueError
                /\ address_of (p2wsh_script h) testnet = Raise ValueError).
Proof.
  assert (Hcases :
    (exists a, address_of self testnet = Ok a
               /\ (is_p2pkh_script_pubkey self = true
                   \/ is_p2sh_script_pubkey self = true))
    \/ (address_of self testnet = Raise ValueError
        /\ is_p2pkh_script_pubkey self = false
        /\ is_p2sh_script_pubkey self = false)).
  { destruct (is_p2pkh_script_pubkey self) eqn:E1.
    - left. pose proof E1 as E. apply is_p2pkh_iff in E as (h & Hl & ->).
      rewrite address_p2pkh by assumption. eauto.
    - destruct (is_p2sh_script_pubkey self) eqn:E2.
      + left. pose proof E2 as E. apply is_p2sh_iff in E as (h & Hl & ->).
        rewrite address_p2sh by assumption. eauto.
      + right. unfold address. now rewrite E1, E2. }
  split; [intros; now apply address_p2pkh|].
  split; [intros; now apply address_p2sh|].
  split; [|split; [|split]].
  - split.
    + intros H. destruct Hcases as [(a & Ha & _)|(_ & H1 & H2)];
        [congruence|auto].
    + intros [H1 H2]. unfold address. now rewrite H1, H2.
  - intros e H. destruct Hcases as [(a & Ha & _)|(Hr & _)]; congruence.
  - destruct Hcases as [(a & Ha & _)|(Hr & _)]; congruence.
  - intros h. split; reflexivity.
Qed.

(** X4: the address [p2sh_address] derives from a redeem script is the
    address of the script-hash lock script built from the 160-bit hash of
    its raw serialization; a redeem script that has no raw serialization
    has no such address: the exception of [raw_serialize] is raised. *)
Theorem p2sh_address_is_address_of_lock (self : Script) (raw : bytes)
  (testnet : bool) :
  raw_serialize self = Ok raw ->
  len (hash160 raw) = 20 ->
  p2sh_address_of self testnet
  = address_of (p2sh_script (hash160 raw)) testnet
  /\ p2sh_address_of self testnet
     = Ok (h160_to_p2sh_address (hash160 raw) testnet).
Proof.
  intros Hr Hl. rewrite address_p2sh by exact Hl.
  unfold p2sh_address. rewrite Hr. split; reflexivity.
Qed.

Lemma p2wsh_script_serialized (s256 : bytes) :
  len s256 = 32 ->
  raw_serialize (p2wsh_script s256) = Ok (x00 :: x20 :: s256).
Proof.
  intros Hl. rewrite raw_serialize_spec. unfold p2wsh_script.
  cbn [serialize_all]. rewrite serialize_push_small by lia.
  rewrite Hl. cbn [bind]. rewrite app_nil_r. reflexivity.
Qed.

(** X5: for a witness script with a raw serialization, whose 256-bit hash
    has 32 bytes, [p2wsh_script_pubkey] returns the witness-script-hash
    lock script of that hash: [is_p2wsh_script_pubkey] holds of it, no
    other pattern predicate does, and its raw serialization is the bytes
    [00 20] followed by the hash. *)
Theorem p2wsh_script_pubkey_is_witness_lock (self : Script) (raw : bytes) :
  raw_serialize self = Ok raw ->
  len (sha256 raw) = 32 ->
  exists script_pubkey,
    p2wsh_script_pubkey_of self = Ok script_pubkey
    /\ script_pubkey = p2wsh_script (sha256 raw)
    /\ is_p2wsh_script_pubkey script_pubkey = true
    /\ is_p2wpkh_script_pubkey script_pubkey = false
    /\ is_p2sh_script_pubkey script_pubkey = false
    /\ is_p2pkh_script_pubkey script_pubkey = false
    /\ raw_serialize script_pubkey = Ok (x00 :: x20 :: sha256 raw).
Proof.
  intros Hr Hl. exists (p2wsh_script (sha256 raw)).
  unfold p2wsh_script_pubkey. rewrite Hr.
  repeat split.
  - apply is_p2wsh_iff. eauto.
  - cbn. now rewrite Hl.
  - now apply p2wsh_script_serialized.
Qed.

(** X6: for a witness script with raw serialization [raw], whose 256-bit
    hash has 32 bytes, [p2wsh_address] is the bech32 encoding of the
    bytes [00 20 sha256(raw)], and [p2sh_p2wsh_address] is the
    script-hash address of the 160-bit hash of those same bytes; neither
    raises. *)
Theorem witness_script_addresses (self : Script) (raw : bytes)
  (testnet : bool) :
  raw_serialize self = Ok raw ->
  len (sha256 raw) = 32 ->
  p2wsh_address_of self testnet
  = Ok (encode_bech32_checksum (x00 :: x20 :: sha256 raw) testnet)
  /\ p2sh_p2wsh_address_of self testnet
     = Ok (h160_to_p2sh_address (hash160 (x00 :: x20 :: sha256 raw))
             testnet).
Proof.
  intros Hr Hl.
  unfold p2wsh_address, p2sh_p2wsh_address, p2sh_address,
    p2wsh_script_pubkey.
  rewrite Hr. cbn [bind]. rewrite (p2wsh_script_serialized _ Hl).
  split; reflexivity.
Qed.

(** X7: a script that has no raw serialization has none of the addresses
    derived from it: [p2sh_address], [p2wsh_script_pubkey],
    [p2wsh_address] and [p2sh_p2wsh_address] raise the exception of
    [raw_serialize], which is [ValueError] for a script that is a single
    data push of 75 bytes or of more than 520 bytes. *)
Theorem derived_addresses_need_serialization (self : Script) (e : exn)
  (testnet : bool) :
  raw_serialize self = Raise e ->
  p2sh_address_of self testnet = Raise e
  /\ p2wsh_script_pubkey_of self = Raise e
  /\ p2wsh_address_of self testnet = Raise e
  /\ p2sh_p2wsh_address_of self testnet = Raise e.
Proof.
  intros Hr.
  unfold p2wsh_address, p2sh_p2wsh_address, p2sh_address,
    p2wsh_script_pubkey.
  rewrite Hr. repeat split.
Qed.

End AddressProperties.

(** ** Serialization of concatenated and of arbitrary scripts *)

(** X8: raw serialization follows concatenation: the raw bytes of
    [a + b] are the raw bytes of [a] followed by those of [b]; when [a]
    cannot be serialized the sum raises what [a] raises, and when only
    [b] cannot, what [b] raises.  The script [Script()] has no raw bytes
    and is neutral for [+]. *)
Theorem raw_serialize_add (a b : Script) :
  (forall x y, raw_serialize a = Ok x -> raw_serialize b = Ok y ->
               raw_serialize (Script_add a b) = Ok (x ++ y))
  /\ (forall e, raw_serialize a = Raise e ->
                raw_serialize (Script_add a b) = Raise e)
  /\ (forall x e, raw_serialize a = Ok x -> raw_serialize b = Raise e ->
                  raw_serialize (Script_add a b) = Raise e)
  /\ raw_serialize (Script_init None) = Ok []
  /\ Script_add (Script_init None) a = a
  /\ Script_add a (Script_init None) = a.
Proof.
  unfold Script_add, Script_init. rewrite !raw_serialize_spec.
  rewrite serialize_all_app.
  split; [|split; [|split; [|split; [|split]]]].
  - intros x y -> ->. reflexivity.
  - intros e ->. reflexivity.
  - intros x e -> ->. reflexivity.
  - reflexivity.
  - reflexivity.
  - apply app_nil_r.
Qed.

Lemma raw_serialize_add_witness :
  raw_serialize
    (Script_add [DataPush [x02; x03]] [Opcode 0xa9; Opcode 0x87])
  = Ok ([x02; x02; x03] ++ [xa9; x87]).
Proof.
  apply (proj1 (raw_serialize_add [DataPush [x02; x03]]
                  [Opcode 0xa9; Opcode 0x87])); reflexivity.
Defined.

Lemma serialize_command_encodable (c : command) :
  encodable_command c = true -> exists enc, serialize_command c = Ok enc.
Proof.
  destruct c as [n|d]; cbn [encodable_command]; intros H.
  - cbn [serialize_command].
    rewrite int_to_little_endian_ok; [eauto|].
    change (256 ^ Z.of_nat 1) with 256. revert H. zbool; discriminate.
  - apply valid_command_serializes. exact H.
Qed.

Lemma serialize_command_unencodable (c : command) :
  encodable_command c = false ->
  serialize_command c
  = Raise match c with
          | Opcode _ => OverflowError
          | DataPush _ => ValueError
          end.
Proof.
  destruct c as [n|d]; cbn [encodable_command]; intros H.
  - cbn [serialize_command]. unfold int_to_little_endian.
    change (256 ^ Z.of_nat 1) with 256. revert H.
    zbool; intros; try discriminate; reflexivity.
  - apply serialize_push_unencodable. pose proof (len_nonneg d).
    revert H. zbool; intros; try discriminate; lia.
Qed.

Lemma serialize_all_encodable (s : list command) :
  forallb encodable_command s = true -> exists raw, serialize_all s = Ok raw.
Proof.
  induction s as [|c s IH]; cbn [forallb serialize_all]; [eauto|].
  intros H. apply andb_true_iff in H as [Hc Hs].
  destruct (serialize_command_encodable c Hc) as [x ->].
  destruct (IH Hs) as [y ->]. cbn [bind]. eauto.
Qed.

(** X9: [raw_serialize] succeeds exactly on the scripts all of whose
    commands are opcodes of 0 to 255 or data pushes of 0 to 74 or 76 to
    520 bytes; otherwise the first command that is not decides the
    exception: [OverflowError] for an opcode outside 0 to 255,
    [ValueError] for a data push of 75 or of more than 520 bytes. *)
Theorem raw_serialize_succeeds_iff (self : Script) :
  ((exists raw, raw_serialize self = Ok raw)
   <-> forallb encodable_command self = true)
  /\ (forall pre c post,
         self = pre ++ c :: post ->
         forallb encodable_command pre = true ->
         encodable_command c = false ->
         raw_serialize self
         = Raise match c with
                 | Opcode _ => OverflowError
                 | DataPush _ => ValueError
                 end).
Proof.
  assert (Hfirst : forall pre c post,
             self = pre ++ c :: post ->
             forallb encodable_command pre = true ->
             encodable_command c = false ->
             raw_serialize self
             = Raise match c with
                     | Opcode _ => OverflowError
                     | DataPush _ => ValueError
                     end).
  { intros pre c post -> Hpre Hc. rewrite raw_serialize_spec.
    rewrite serialize_all_app.
    destruct (serialize_all_encodable pre Hpre) as [x ->].
    cbn [bind serialize_all].
    now rewrite (serialize_command_unencodable c Hc). }
  split; [|exact Hfirst]. split.
  - intros [raw Hr].
    destruct (forallb encodable_command self) eqn:E; [reflexivity|].
    exfalso. clear Hfirst. revert raw Hr E. rewrite raw_serialize_spec.
    induction self as [|c s IH]; cbn [forallb serialize_all];
      [discriminate|].
    intros raw Hr E.
    destruct (encodable_command c) eqn:Ec.
    + destruct (serialize_command c); try discriminate.
      destruct (serialize_all s) as [y| |]; try discriminate.
      exact (IH y eq_refl E).
    + rewrite (serialize_command_unencodable c Ec) in Hr. discriminate.
  - intros H. rewrite raw_serialize_spec. now apply serialize_all_encodable.
Qed.

(** X15: serialization tells validly constructed scripts apart: two such
    scripts with the same serialization have the same commands up to the
    empty data push, which is written like the opcode 0; they are equal
    when neither holds an empty data push. *)
Theorem serialize_injective (s1 s2 : Script) (bs : bytes) :
  forallb valid_command s1 = true ->
  forallb valid_command s2 = true ->
  serialize s1 = Ok bs ->
  serialize s2 = Ok bs ->
  map canonical s1 = map canonical s2
  /\ (forallb nonempty_push s1 = true ->
      forallb nonempty_push s2 = true -> s1 = s2).
Proof.
  intros Hv1 Hv2 H1 H2.
  pose proof (parse_serialized s1 bs Hv1 H1) as P1.
  pose proof (parse_serialized s2 bs Hv2 H2) as P2.
  assert (E : map canonical s1 = map canonical s2) by congruence.
  split; [exact E|]. intros N1 N2.
  now rewrite <- (canonical_nonempty s1 N1), <- (canonical_nonempty s2 N2).
Qed.

Lemma serialize_injective_witness :
  map canonical [DataPush []; Opcode 0xac]
  = map canonical [Opcode 0; Opcode 0xac]
  /\ (forallb nonempty_push [DataPush []; Opcode 0xac] = true ->
      forallb nonempty_push [Opcode 0; Opcode 0xac] = true ->
      [DataPush []; Opcode 0xac] = [Opcode 0; Opcode 0xac]).
Proof.
  apply (serialize_injective [DataPush []; Opcode 0xac]
           [Opcode 0; Opcode 0xac] [x02; x00; xac]); reflexivity.
Defined.

(** ** What [parse] accepts, returns and raises *)



Lemma little_endian_bound (b : bytes) :
  little_endian_to_int b < 256 ^ len b.
Proof.
  induction b as [|x b IH]; cbn [little_endian_to_int].
  - cbn. lia.
  - pose proof (byte_to_Z_range x).
    replace (len (x :: b)) with (Z.succ (len b))
      by (unfold len; cbn [List.length]; lia).
    rewrite Z.pow_succ_r by apply len_nonneg. lia.
Qed.

Lemma len_firstn (n : Z) (s : bytes) :
  0 <= n -> len (firstn (Z.to_nat n) s) <= n.
Proof.
  intros H. unfold len. rewrite length_firstn. lia.
Qed.

Lemma little_endian_firstn_bound (k : nat) (s : bytes) :
  little_endian_to_int (firstn k s) < 256 ^ Z.of_nat k.
Proof.
  pose proof (little_endian_bound (firstn k s)) as H.
  eapply Z.lt_le_trans; [exact H|].
  apply Z.pow_le_mono_r; [lia|]. unfold len. rewrite length_firstn. lia.
Qed.

Lemma forallb_snoc {A : Type} (f : A -> bool) (l : list A) (x : A) :
  forallb f l = true -> f x = true -> forallb f (l ++ [x]) = true.
Proof.
  intros Hl Hx. rewrite forallb_app, Hl. cbn. now rewrite Hx.
Qed.

Lemma parse_loop_shape (fuel : nat) :
  forall s count length acc cmds,
    forallb parsed_command acc = true ->
    parse_loop fuel s count length acc = Ok cmds ->
    forallb parsed_command cmds = true.
Proof.
  induction fuel as [|fuel IH]; intros s count length acc cmds Ha.
  - cbn [parse_loop]. destruct (count <? length).
    + destruct s; discriminate.
    + destruct (negb _); [discriminate|]. congruence.
  - cbn [parse_loop]. unfold read.
    destruct (count <? length);
      [|destruct (negb _); [discriminate|congruence]].
    destruct s as [|c s1]; [discriminate|].
    pose proof (byte_to_Z_range c) as Hb.
    pose proof (little_endian_nonneg (firstn (Z.to_nat 1) s1)) as H1.
    pose proof (little_endian_nonneg (firstn (Z.to_nat 2) s1)) as H2.
    pose proof (little_endian_firstn_bound (Z.to_nat 1) s1) as B1.
    pose proof (little_endian_firstn_bound (Z.to_nat 2) s1) as B2.
    change (256 ^ Z.of_nat (Z.to_nat 1)) with 256 in B1.
    change (256 ^ Z.of_nat (Z.to_nat 2)) with 65536 in B2.
    destruct ((1 <=? byte_to_Z c) && (byte_to_Z c <=? 75)) eqn:E1.
    { apply IH. apply forallb_snoc; [exact Ha|]. cbn [parsed_command].
      apply Z.leb_le. pose proof (len_firstn (byte_to_Z c) s1). lia. }
    destruct (byte_to_Z c =? 76) eqn:E2.
    { apply IH. apply forallb_snoc; [exact Ha|]. cbn [parsed_command].
      apply Z.leb_le.
      match goal with
      | |- len (firstn (Z.to_nat ?n) ?l) <= _ =>
          pose proof (len_firstn n l)
      end. lia. }
    destruct (byte_to_Z c =? 77) eqn:E3.
    { apply IH. apply forallb_snoc; [exact Ha|]. cbn [parsed_command].
      apply Z.leb_le.
      match goal with
      | |- len (firstn (Z.to_nat ?n) ?l) <= _ =>
          pose proof (len_firstn n l)
      end. lia. }
    apply IH. apply forallb_snoc; [exact Ha|]. cbn [parsed_command].
    revert E1 E2 E3. zbool; intros; try discriminate; try reflexivity; lia.
Qed.

(** X11: a script returned by [parse] holds no opcode from 1 to 77: its
    opcodes are 0 or lie between 78 and 255, and its data pushes have at
    most 65535 bytes. *)
Theorem parse_output_shape (s : stream) (cmds : Script) :
  parse s = Ok cmds ->
  forallb parsed_command cmds = true
  /\ (forall n, In (Opcode n) cmds -> n = 0 \/ 78 <= n <= 255)
  /\ (forall d, In (DataPush d) cmds -> len d <= 65535).
Proof.
  intros H.
  assert (Hall : forallb parsed_command cmds = true).
  { unfold parse in H. destruct (read_varint s) as [[length s1]| |];
      try discriminate.
    cbn [bind] in H.
    eapply parse_loop_shape; [|exact H]. reflexivity. }
  split; [exact Hall|].
  rewrite forallb_forall in Hall. split.
  - intros n Hin. specialize (Hall _ Hin). cbn [parsed_command] in Hall.
    revert Hall. zbool; intros; try discriminate; lia.
  - intros d Hin. specialize (Hall _ Hin). cbn [parsed_command] in Hall.
    now apply Z.leb_le.
Qed.

Lemma parse_output_shape_witness :
  forallb parsed_command [DataPush [x02; x03]; Opcode 0xa9] = true
  /\ (forall n, In (Opcode n) [DataPush [x02; x03]; Opcode 0xa9] ->
                n = 0 \/ 78 <= n <= 255)
  /\ (forall d, In (DataPush d) [DataPush [x02; x03]; Opcode 0xa9] ->
                len d <= 65535).
Proof.
  apply (parse_output_shape [x04; x02; x02; x03; xa9]
           [DataPush [x02; x03]; Opcode 0xa9]).
  reflexivity.
Defined.

Lemma parse_loop_last_push (fuel : nat) (n : Z) (d : bytes) (count : Z)
  (acc : list command) :
  1 <= n <= 75 -> len d <= n ->
  parse_loop (S fuel) (byte_of_Z n :: d) count (count + 1 + n) acc
  = Ok (acc ++ [DataPush d]).
Proof.
  intros Hn Hd. cbn [parse_loop].
  rewrite byte_to_of_Z by lia. zbool. unfold read.
  rewrite firstn_all2, skipn_all2 by (unfold len in Hd; lia).
  apply parse_loop_exit.
Qed.

Lemma read_varint_small (n : Z) (s : stream) :
  0 <= n < 253 -> read_varint (byte_of_Z n :: s) = Ok (n, s).
Proof.
  intros Hn. cbn [read_varint]. rewrite byte_to_of_Z by lia.
  zbool. reflexivity.
Qed.

(** X12: [parse] counts the bytes a push announces, not the bytes it gets:
    when the stream ends inside the data of a push that fills the declared
    length, the script is returned with the bytes that were there.  For a
    push byte [n] from 1 to 75 and at most [n] bytes of data [d], the
    stream of the length byte [1 + n], the byte [n] and [d] parses to the
    script that pushes [d]. *)
Theorem parse_accepts_truncated_push (n : Z) (d : bytes) :
  1 <= n <= 75 -> len d <= n ->
  parse (byte_of_Z (1 + n) :: byte_of_Z n :: d) = Ok [DataPush d].
Proof.
  intros Hn Hd. unfold parse. rewrite read_varint_small by lia.
  cbn [bind List.length].
  apply (parse_loop_last_push (List.length d) n d 0 []); assumption.
Qed.

Lemma parse_accepts_truncated_push_witness :
  parse [x06; x05; xaa; xbb] = Ok [DataPush [xaa; xbb]].
Proof.
  apply (parse_accepts_truncated_push 5 [xaa; xbb]); cbn; lia.
Defined.

(** X13: [parse] reads what [serialize] cannot write: the push byte 75
    followed by 75 bytes parses to the script that pushes them, and that
    script has neither a raw serialization nor a serialization:
    [ValueError] is raised. *)
Theorem parse_reads_push_of_75_bytes (d : bytes) :
  len d = 75 ->
  parse (x4c :: x4b :: d) = Ok [DataPush d]
  /\ raw_serialize [DataPush d] = Raise ValueError
  /\ serialize [DataPush d] = Raise ValueError.
Proof.
  intros Hl. split.
  - unfold parse. change x4c with (byte_of_Z 76).
    rewrite read_varint_small by lia. cbn [bind List.length].
    change x4b with (byte_of_Z 75).
    apply (parse_loop_last_push (List.length d) 75 d 0 []); lia.
  - unfold serialize. rewrite raw_serialize_single.
    rewrite serialize_push_unencodable by (now left). split; reflexivity.
Qed.

Lemma parse_reads_push_of_75_bytes_witness :
  parse (x4c :: x4b :: zeros 75) = Ok [DataPush (zeros 75)]
  /\ raw_serialize [DataPush (zeros 75)] = Raise ValueError
  /\ serialize [DataPush (zeros 75)] = Raise ValueError.
Proof.
  apply (parse_reads_push_of_75_bytes (zeros 75)). reflexivity.
Defined.

(** X14: an opcode from 1 to 77 can be serialized but not read back: the
    script that holds it alone serializes to the length byte 1 and the
    opcode byte, and [parse] takes that byte for a push marker and raises
    [SyntaxError]. *)
Theorem marker_opcode_does_not_parse_back (n : Z) :
  1 <= n <= 77 ->
  serialize [Opcode n] = Ok [x01; byte_of_Z n]
  /\ parse [x01; byte_of_Z n] = Raise SyntaxError.
Proof.
  intros Hn. split.
  - unfold serialize. rewrite raw_serialize_single. cbn [serialize_command].
    rewrite int_to_little_endian_ok
      by (change (256 ^ Z.of_nat 1) with 256; lia).
    reflexivity.
  - unfold parse. cbn [read_varint].
    change (byte_to_Z x01) with 1. cbn [Z.eqb Pos.eqb bind List.length].
    cbn [parse_loop]. rewrite byte_to_of_Z by lia.
    unfold read. rewrite !firstn_nil, !skipn_nil.
    cbn [little_endian_to_int].
    zbool; reflexivity.
Qed.

Lemma marker_opcode_does_not_parse_back_witness :
  serialize [Opcode 76] = Ok [x01; byte_of_Z 76]
  /\ parse [x01; byte_of_Z 76] = Raise SyntaxError.
Proof.
  apply (marker_opcode_does_not_parse_back 76). lia.
Defined.

(** X21: a script returned by [parse] has a raw serialization as soon as
    none of its data pushes is 75 bytes or more than 520 bytes long: its
    opcodes all fit one byte. *)
Theorem parsed_script_serializes (s : stream) (cmds : Script) :
  parse s = Ok cmds ->
  (forall d, In (DataPush d) cmds -> len d <> 75 /\ len d <= 520) ->
  exists raw, raw_serialize cmds = Ok raw.
Proof.
  intros Hp Hd. rewrite raw_serialize_spec.
  apply serialize_all_encodable. apply forallb_forall. intros c Hin.
  assert (Hall : forallb parsed_command cmds = true).
  { unfold parse in Hp. destruct (read_varint s) as [[length s1]| |];
      try discriminate.
    cbn [bind] in Hp. eapply parse_loop_shape; [|exact Hp]. reflexivity. }
  rewrite forallb_forall in Hall. specialize (Hall c Hin).
  destruct c as [n|d]; cbn [parsed_command encodable_command] in *.
  - revert Hall. zbool; intros; try discriminate; try reflexivity; lia.
  - destruct (Hd d Hin) as [H75 H520]. pose proof (len_nonneg d).
    zbool; try reflexivity; lia.
Qed.

Lemma parsed_script_serializes_witness :
  exists raw, raw_serialize [DataPush [x02; x03]; Opcode 0xa9] = Ok raw.
Proof.
  apply (parsed_script_serializes [x04; x02; x02; x03; xa9]
           [DataPush [x02; x03]; Opcode 0xa9]).
  - reflexivity.
  - intros d [H|[H|[]]]; [|discriminate].
    injection H as <-. cbn. split; lia.
Defined.

(** ** Spending through the expansion rules *)

Section EvaluatorCompositions.

Variable hash160 : bytes -> bytes.
Variable sha256 : bytes -> bytes.
Variable OP_CODE_FUNCTIONS : Z -> option operation.

Local Abbreviation run := (eval_loop hash160 sha256 OP_CODE_FUNCTIONS).
Local Abbreviation step := (eval_step hash160 sha256 OP_CODE_FUNCTIONS).
Local Abbreviation eval := (evaluate hash160 sha256 OP_CODE_FUNCTIONS).

Local Arguments parse : simpl never.
Local Arguments encode_varint : simpl never.
Local Arguments encode_varstr : simpl never.
Local Arguments pop : simpl never.

Ltac unfold_frames :=
  unfold with_self, with_commands, with_stack, with_altstack;
  cbn [self_commands witness commands stack altstack].

(** The script object a frame belongs to plays no part in a pass of the
    loop. *)
Lemma invoke_with_self (z n : Z) (x : list command) (m : frame) :
  invoke OP_CODE_FUNCTIONS z n (with_self x m)
  = match invoke OP_CODE_FUNCTIONS z n m with
    | Ok (ok, m') => Ok (ok, with_self x m')
    | Raise e => Raise e
    | OutOfFuel => OutOfFuel
    end.
Proof.
  destruct m as [sc w c st0 a0]. unfold invoke. unfold_frames.
  destruct (OP_CODE_FUNCTIONS n) as [op|]; [|reflexivity].
  destruct ((n =? 99) || (n =? 100)).
  { destruct op; try reflexivity.
    destruct (f st0 c) as [ok [st cmds]]. reflexivity. }
  destruct ((n =? 107) || (n =? 108)).
  { destruct op; try reflexivity.
    destruct (f st0 a0) as [ok [st alt]]. reflexivity. }
  destruct ((n =? 172) || (n =? 173) || (n =? 174) || (n =? 175)).
  { destruct op; try reflexivity.
    destruct (f st0 z) as [ok st]. reflexivity. }
  destruct op; try reflexivity.
  destruct (f st0) as [ok st]. reflexivity.
Qed.

Lemma p2wpkh_rule_with_self (x : list command) (m : frame) :
  p2wpkh_rule (with_self x m) = with_self x (p2wpkh_rule m).
Proof.
  destruct m as [sc w c st0 a0]. unfold p2wpkh_rule. unfold_frames.
  destruct st0 as [|s0 [|s1 [|s2 r]]]; try reflexivity.
  destruct (is_empty s0 && (len s1 =? 20)); reflexivity.
Qed.

Lemma p2wsh_rule_with_self (x : list command) (m : frame) :
  p2wsh_rule sha256 (with_self x m)
  = flow_map (with_self x) (p2wsh_rule sha256 m).
Proof.
  destruct m as [sc w c st0 a0]. unfold p2wsh_rule, try. unfold_frames.
  destruct st0 as [|s0 [|s1 [|s2 r]]]; try reflexivity.
  destruct (is_empty s0 && (len s1 =? 32)); [|reflexivity].
  destruct (pop w) as [[ws r]|]; [|reflexivity].
  destruct (negb (bytes_eqb s1 (sha256 ws))); [reflexivity|].
  destruct (encode_varint (len ws)); try reflexivity.
  destruct (parse (a ++ ws)); reflexivity.
Qed.

Lemma p2sh_rule_with_self (d : bytes) (x : list command) (m : frame) :
  p2sh_rule hash160 d (with_self x m)
  = flow_map (with_self x) (p2sh_rule hash160 d m).
Proof.
  destruct m as [sc w c st0 a0]. unfold p2sh_rule, try. unfold_frames.
  destruct (p2sh_lookahead c) as [h|]; [|reflexivity].
  destruct (encode_varstr d) as [redeem| |]; try reflexivity.
  destruct (op_hash160 hash160 st0) as [[|] st1]; [|reflexivity].
  cbn [negb].
  destruct (op_equal (st1 ++ [h])) as [[|] st2]; [|reflexivity].
  cbn [negb].
  destruct (op_verify st2) as [[|] st3]; [|reflexivity].
  cbn [negb].
  destruct (parse redeem); reflexivity.
Qed.
Lemma eval_step_with_self (z : Z) (c : command) (x : list command)
  (m : frame) :
  step z c (with_self x m) = flow_map (with_self x) (step z c m).
Proof.
  destruct c as [n|d]; cbn [eval_step].
  - unfold exec_opcode, try. rewrite invoke_with_self.
    destruct (invoke OP_CODE_FUNCTIONS z n m) as [[ok m']| |];
      try reflexivity.
    destruct ok; reflexivity.
  - unfold exec_push.
    change (with_stack (stack (with_self x m) ++ [d]) (with_self x m))
      with (with_self x (with_stack (stack m ++ [d]) m)).
    rewrite p2sh_rule_with_self.
    destruct (p2sh_rule hash160 d (with_stack (stack m ++ [d]) m))
      as [m1|r m1]; cbn [flow_map]; [|reflexivity].
    now rewrite p2wpkh_rule_with_self, p2wsh_rule_with_self.
Qed.

Lemma verdict_with_self (x : list command) (m : frame) :
  verdict (with_self x m)
  = (fst (verdict m), with_self x (snd (verdict m))).
Proof.
  destruct m as [sc w c st0 a0]. unfold verdict. unfold_frames.
  destruct (pop st0) as [[top r]|]; [|reflexivity].
  destruct (is_empty top); reflexivity.
Qed.

Lemma eval_loop_with_self (fuel : nat) (z : Z) (x : list command) :
  forall m,
    run fuel z (with_self x m)
    = (fst (run fuel z m), with_self x (snd (run fuel z m))).
Proof.
  induction fuel as [|fuel IH]; intros m;
    destruct (commands m) as [|c rest] eqn:Hc.
  - rewrite !eval_loop_nil by exact Hc. apply verdict_with_self.
  - cbn [eval_loop]. unfold_frames. rewrite Hc. cbn [fst snd].
    now rewrite Hc.
  - rewrite !eval_loop_nil by exact Hc. apply verdict_with_self.
  - rewrite (eval_loop_cons hash160 sha256 OP_CODE_FUNCTIONS fuel z
               (with_self x m) c rest Hc).
    rewrite (eval_loop_cons hash160 sha256 OP_CODE_FUNCTIONS fuel z
               m c rest Hc).
    change (with_commands rest (with_self x m))
      with (with_self x (with_commands rest m)).
    rewrite eval_step_with_self.
    destruct (step z c (with_commands rest m)) as [m1|r m1];
      cbn [flow_map].
    + apply IH.
    + reflexivity.
Qed.

(** Running the loop on a queue, with empty stacks, is evaluating the
    script of that queue. *)
Lemma eval_loop_is_evaluate (fuel : nat) (z : Z) (self cmds : list command)
  (witness0 : list bytes) :
  fst (run fuel z (Frame self witness0 cmds [] []))
  = eval fuel cmds z witness0.
Proof.
  unfold evaluate, evaluate_frame, enter.
  change (Frame self witness0 cmds [] [])
    with (with_self self (Frame cmds witness0 cmds [] [])).
  now rewrite eval_loop_with_self.
Qed.

(** X16: spending a script-hash lock.  For a validly constructed redeem
    script with raw serialization [raw] (shorter than 2^64 bytes) whose
    160-bit hash has 20 bytes, evaluating the push of [raw] followed by
    the script-hash lock script of that hash is, after one pass of the
    loop, evaluating the redeem script, its empty data pushes read as the
    opcode 0. *)
Theorem p2sh_spend_runs_redeem_script (fuel : nat) (z : Z)
  (redeem : Script) (raw : bytes) (witness0 : list bytes) :
  forallb valid_command redeem = true ->
  raw_serialize redeem = Ok raw ->
  len raw < 2 ^ 64 ->
  len (hash160 raw) = 20 ->
  eval (S fuel) (DataPush raw :: p2sh_script (hash160 raw)) z witness0
  = eval fuel (map canonical redeem) z witness0.
Proof.
  intros Hv Hr Hl Hh.
  destruct (encode_varint_ok (len raw)) as [v Hv'];
    [pose proof (len_nonneg raw); lia|].
  assert (Hs : serialize redeem = Ok (v ++ raw)).
  { unfold serialize, encode_varstr. rewrite Hr. cbn [bind].
    now rewrite Hv'. }
  assert (He : encode_varstr raw = Ok (v ++ raw)).
  { unfold encode_varstr. now rewrite Hv'. }
  pose proof (parse_serialized redeem _ Hv Hs) as Hp.
  unfold evaluate at 1. unfold evaluate_frame, enter.
  erewrite eval_loop_cons by reflexivity.
  cbn [eval_step].
  rewrite (exec_push_p2sh_match hash160 sha256 raw (v ++ raw))
    by (try reflexivity; assumption).
  rewrite Hp. unfold try. unfold_frames.
  rewrite p2wpkh_rule_idle by (cbn; discriminate).
  rewrite p2wsh_rule_idle by (cbn; discriminate).
  apply eval_loop_is_evaluate.
Qed.

(** X17: spending a witness key-hash lock.  When the opcode 0 of the
    table pushes the empty byte string on the empty stack, evaluating the
    script [p2wpkh_script(h)] of a 20-byte [h] is, after two passes of
    the loop, evaluating the witness elements followed by the key-hash
    lock script of [h]. *)
Theorem p2wpkh_spend_runs_key_hash_lock (fuel : nat) (z : Z) (h : bytes)
  (witness0 : list bytes) (op_0 : list bytes -> bool * list bytes) :
  OP_CODE_FUNCTIONS 0 = Some (StackOp op_0) ->
  op_0 [] = (true, [[]]) ->
  len h = 20 ->
  eval (S (S fuel)) (p2wpkh_script h) z witness0
  = eval fuel (map DataPush witness0 ++ p2pkh_script h) z witness0.
Proof.
  intros Ht Hop Hl.
  unfold evaluate at 1. unfold evaluate_frame, enter, p2wpkh_script.
  erewrite eval_loop_cons by reflexivity.
  cbn [eval_step]. unfold exec_opcode, invoke. rewrite Ht.
  cbn [Z.eqb orb]. unfold_frames. rewrite Hop. unfold try. cbn [negb].
  unfold_frames.
  erewrite eval_loop_cons by reflexivity.
  cbn [eval_step].
  rewrite exec_push_no_p2sh by reflexivity. unfold_frames. cbn [app].
  rewrite (p2wpkh_rule_fires _ h) by (try reflexivity; exact Hl).
  rewrite p2wsh_rule_idle by (cbn; discriminate).
  unfold_frames. cbn [app].
  apply eval_loop_is_evaluate.
Qed.

(** X18: spending a witness script-hash lock.  When the opcode 0 of the
    table pushes the empty byte string on the empty stack, and the last
    witness element is the raw serialization [raw] (shorter than 2^64
    bytes) of a validly constructed witness script whose 256-bit hash has
    32 bytes, evaluating [p2wsh_script(sha256(raw))] is, after two passes
    of the loop, evaluating the other witness elements followed by the
    witness script, its empty data pushes read as the opcode 0. *)
Theorem p2wsh_spend_runs_witness_script (fuel : nat) (z : Z)
  (witness_script : Script) (raw : bytes) (init : list bytes)
  (op_0 : list bytes -> bool * list bytes) :
  OP_CODE_FUNCTIONS 0 = Some (StackOp op_0) ->
  op_0 [] = (true, [[]]) ->
  forallb valid_command witness_script = true ->
  raw_serialize witness_script = Ok raw ->
  len raw < 2 ^ 64 ->
  len (sha256 raw) = 32 ->
  eval (S (S fuel)) (p2wsh_script (sha256 raw)) z (init ++ [raw])
  = eval fuel (map DataPush init ++ map canonical witness_script) z
      (init ++ [raw]).
Proof.
  intros Ht Hop Hv Hr Hl Hh.
  destruct (encode_varint_ok (len raw)) as [v Hv'];
    [pose proof (len_nonneg raw); lia|].
  assert (Hs : serialize witness_script = Ok (v ++ raw)).
  { unfold serialize, encode_varstr. rewrite Hr. cbn [bind].
    now rewrite Hv'. }
  pose proof (parse_serialized witness_script _ Hv Hs) as Hp.
  unfold evaluate at 1. unfold evaluate_frame, enter, p2wsh_script.
  erewrite eval_loop_cons by reflexivity.
  cbn [eval_step]. unfold exec_opcode, invoke. rewrite Ht.
  cbn [Z.eqb orb]. unfold_frames. rewrite Hop. unfold try. cbn [negb].
  unfold_frames.
  erewrite eval_loop_cons by reflexivity.
  cbn [eval_step].
  rewrite exec_push_no_p2sh by reflexivity. unfold_frames. cbn [app].
  rewrite (p2wpkh_rule_skips_32 _ (sha256 raw))
    by (try reflexivity; exact Hh).
  rewrite (p2wsh_rule_match sha256 _ init raw v)
    by (try reflexivity; assumption).
  rewrite Hp. unfold try. unfold_frames. cbn [app].
  apply eval_loop_is_evaluate.
Qed.

(** X19: [evaluate] does not always end.  With the witness [b''],
    [sha256(b'')], [b''] the script that pushes [b''] and [sha256(b'')]
    is expanded, by the second witness program rule, into the same two
    pushes again and again: whatever the number of passes allowed, the
    loop has not been left, for every opcode table and every digest
    that gives 32 bytes on the empty byte string. *)
Theorem evaluate_loops_forever (fuel : nat) (z : Z) :
  len (sha256 []) = 32 ->
  eval fuel [DataPush []; DataPush (sha256 [])] z [[]; sha256 []; []]
  = OutOfFuel.
Proof.
  intros Hh.
  set (w := [[]; sha256 []; []]).
  set (self := [DataPush []; DataPush (sha256 [])]).
  assert (H : fst (run fuel z (Frame self w self [] [])) = OutOfFuel
              /\ fst (run fuel z
                        (Frame self w [DataPush (sha256 [])] [[]] []))
                 = OutOfFuel).
  { induction fuel as [|fuel [IHa IHb]]; [split; reflexivity|]. split.
    - erewrite eval_loop_cons by reflexivity.
      cbn [eval_step].
      rewrite exec_push_no_p2sh by reflexivity. unfold_frames. cbn [app].
      rewrite p2wpkh_rule_idle by (cbn; discriminate).
      rewrite p2wsh_rule_idle by (cbn; discriminate).
      exact IHb.
    - erewrite eval_loop_cons by reflexivity.
      cbn [eval_step].
      rewrite exec_push_no_p2sh by reflexivity. unfold_frames. cbn [app].
      rewrite (p2wpkh_rule_skips_32 _ (sha256 []))
        by (try reflexivity; exact Hh).
      rewrite (p2wsh_rule_match sha256 _ [[]; sha256 []] [] [x00])
        by (try reflexivity; exact Hh).
      change (parse ([x00] ++ [])) with (@Ok Script []).
      unfold try. unfold_frames. cbn [app map].
      exact IHa. }
  exact (proj1 H).
Qed.

(** X20: an opcode without an entry in the opcode table stops the
    evaluation with [KeyError], whatever follows it in the queue; the
    stack is left as it was. *)
Theorem missing_opcode_raises_KeyError (fuel : nat) (z : Z) (m : frame)
  (n : Z) (rest : list command) :
  commands m = Opcode n :: rest ->
  OP_CODE_FUNCTIONS n = None ->
  run (S fuel) z m = (Raise KeyError, with_commands rest m).
Proof.
  intros Hc Ht.
  rewrite (eval_loop_cons hash160 sha256 OP_CODE_FUNCTIONS fuel z m
             (Opcode n) rest Hc).
  cbn [eval_step]. unfold exec_opcode, invoke. rewrite Ht. reflexivity.
Qed.

End EvaluatorCompositions.

(** ** Closed instances of the further properties *)

Lemma p2sh_address_is_address_of_lock_witness :
  p2sh_address (const_digest 20) bytes (fun h _ => h) [Opcode 0x51] false
  = address bytes (fun h _ => h) (fun h _ => h)
      (p2sh_script (const_digest 20 [x51])) false
  /\ p2sh_address (const_digest 20) bytes (fun h _ => h) [Opcode 0x51] false
     = Ok (const_digest 20 [x51]).
Proof.
  apply (p2sh_address_is_address_of_lock (const_digest 20) bytes
           (fun h _ => h) (fun h _ => h) [Opcode 0x51] [x51] false);
    reflexivity.
Defined.

Lemma p2wsh_script_pubkey_is_witness_lock_witness :
  exists script_pubkey,
    p2wsh_script_pubkey (const_digest 32) [Opcode 0x51] = Ok script_pubkey
    /\ script_pubkey = p2wsh_script (const_digest 32 [x51])
    /\ is_p2wsh_script_pubkey script_pubkey = true
    /\ is_p2wpkh_script_pubkey script_pubkey = false
    /\ is_p2sh_script_pubkey script_pubkey = false
    /\ is_p2pkh_script_pubkey script_pubkey = false
    /\ raw_serialize script_pubkey
       = Ok (x00 :: x20 :: const_digest 32 [x51]).
Proof.
  apply (p2wsh_script_pubkey_is_witness_lock (const_digest 32)
           [Opcode 0x51] [x51]); reflexivity.
Defined.

Lemma witness_script_addresses_witness :
  p2wsh_address (const_digest 32) bytes (fun b _ => b) [Opcode 0x51] false
  = Ok (x00 :: x20 :: const_digest 32 [x51])
  /\ p2sh_p2wsh_address (const_digest 20) (const_digest 32) bytes
       (fun h _ => h) [Opcode 0x51] false
     = Ok (const_digest 20 (x00 :: x20 :: const_digest 32 [x51])).
Proof.
  apply (witness_script_addresses (const_digest 20) (const_digest 32) bytes
           (fun h _ => h) (fun b _ => b) [Opcode 0x51] [x51] false);
    reflexivity.
Defined.

Lemma derived_addresses_need_serialization_witness :
  p2sh_address (const_digest 20) bytes (fun h _ => h)
    [DataPush (zeros 75)] false = Raise ValueError
  /\ p2wsh_script_pubkey (const_digest 32) [DataPush (zeros 75)]
     = Raise ValueError
  /\ p2wsh_address (const_digest 32) bytes (fun b _ => b)
       [DataPush (zeros 75)] false = Raise ValueError
  /\ p2sh_p2wsh_address (const_digest 20) (const_digest 32) bytes
       (fun h _ => h) [DataPush (zeros 75)] false = Raise ValueError.
Proof.
  apply (derived_addresses_need_serialization (const_digest 20)
           (const_digest 32) bytes (fun h _ => h) (fun b _ => b)
           [DataPush (zeros 75)] ValueError false).
  reflexivity.
Defined.

Lemma p2sh_spend_runs_redeem_script_witness :
  evaluate (const_digest 20) (const_digest 32) no_opcodes 2
    (DataPush [x01; x05] :: p2sh_script (const_digest 20 [x01; x05])) 0 []
  = evaluate (const_digest 20) (const_digest 32) no_opcodes 1
      (map canonical [DataPush [x05]]) 0 [].
Proof.
  apply (p2sh_spend_runs_redeem_script (const_digest 20) (const_digest 32)
           no_opcodes 1 0 [DataPush [x05]] [x01; x05] []);
    reflexivity.
Defined.

Lemma p2wpkh_spend_runs_key_hash_lock_witness :
  evaluate (const_digest 20) (const_digest 32)
    (fun n => if n =? 0
              then Some (StackOp (fun st => (true, st ++ [[]])))
              else None)
    2 (p2wpkh_script (zeros 20)) 0 [[x07]; [x08]]
  = evaluate (const_digest 20) (const_digest 32)
      (fun n => if n =? 0
                then Some (StackOp (fun st => (true, st ++ [[]])))
                else None)
      0 (map DataPush [[x07]; [x08]] ++ p2pkh_script (zeros 20)) 0
      [[x07]; [x08]].
Proof.
  apply (p2wpkh_spend_runs_key_hash_lock (const_digest 20)
           (const_digest 32)
           (fun n => if n =? 0
                     then Some (StackOp (fun st => (true, st ++ [[]])))
                     else None)
           0 0 (zeros 20) [[x07]; [x08]]
           (fun st => (true, st ++ [[]]))); reflexivity.
Defined.

Lemma p2wsh_spend_runs_witness_script_witness :
  evaluate (const_digest 20) (const_digest 32)
    (fun n => if n =? 0
              then Some (StackOp (fun st => (true, st ++ [[]])))
              else None)
    3 (p2wsh_script (const_digest 32 [x01; x05])) 0 ([] ++ [[x01; x05]])
  = evaluate (const_digest 20) (const_digest 32)
      (fun n => if n =? 0
                then Some (StackOp (fun st => (true, st ++ [[]])))
                else None)
      1 (map DataPush [] ++ map canonical [DataPush [x05]]) 0
      ([] ++ [[x01; x05]]).
Proof.
  apply (p2wsh_spend_runs_witness_script (const_digest 20)
           (const_digest 32)
           (fun n => if n =? 0
                     then Some (StackOp (fun st => (true, st ++ [[]])))
                     else None)
           1 0 [DataPush [x05]] [x01; x05] []
           (fun st => (true, st ++ [[]]))); reflexivity.
Defined.

Lemma evaluate_loops_forever_witness :
  evaluate (const_digest 20) (const_digest 32) no_opcodes 7
    [DataPush []; DataPush (const_digest 32 [])] 0
    [[]; const_digest 32 []; []]
  = OutOfFuel.
Proof.
  apply (evaluate_loops_forever (const_digest 20) (const_digest 32)
           no_opcodes 7 0).
  reflexivity.
Defined.

Lemma missing_opcode_raises_KeyError_witness :
  eval_loop (const_digest 20) (const_digest 32) no_opcodes 1 0
    (Frame [] [] [Opcode 0x76; DataPush [x01]] [[x01]] [])
  = (Raise KeyError,
     with_commands [DataPush [x01]]
       (Frame [] [] [Opcode 0x76; DataPush [x01]] [[x01]] [])).
Proof.
  apply (missing_opcode_raises_KeyError (const_digest 20) (const_digest 32)
           no_opcodes 0 0
           (Frame [] [] [Opcode 0x76; DataPush [x01]] [[x01]] [])
           0x76 [DataPush [x01]]); reflexivity.
Defined.
